(** * cl/program.go: program build, build-log aggregation and release

    A shallow embedding of the [Program] methods of the Go OpenCL binding
    ([cl/program.go]) and the properties its specification states about them.

    The Go code talks to the OpenCL driver through cgo and mutates a
    [*Program] in place.  Here the driver, the status translator of
    [types.go] and the helpers of [device.go] are the fields of an
    environment record; the Go heap (the [Program] objects and the backing
    arrays of the [[]*Device] slices) and the history of native calls form
    an explicit state that is threaded through a small state-and-panic
    monad. *)

From Stdlib Require Import ZArith NArith String Ascii HexString Lia.
From stdpp Require Import base option list strings gmap.

(** ** Go strings

    A Go string is a sequence of bytes; [string] is a list of [ascii]
    bytes. *)

Module GoString.

Definition nl : string := String (ascii_of_N 10) EmptyString.

(** [strings.Join(elems, sep)] *)
Fixpoint Join (elems : list string) (sep : string) : string :=
  match elems with
  | [] => ""
  | [e] => e
  | e :: rest => e +:+ sep +:+ Join rest sep
  end.

(** The table [asciiSpace] of package [strings]:
    tab, line feed, vertical tab, form feed, carriage return, space. *)
Definition asciiSpace (c : ascii) : bool :=
  match N_of_ascii c with
  | 9 | 10 | 11 | 12 | 13 | 32 => true
  | _ => false
  end%N.

(** [unicode.IsSpace] on the runes above U+007F, read off their UTF-8
    encodings: U+0085 and U+00A0 take two bytes, U+1680, U+2000..U+200A,
    U+2028, U+2029, U+202F, U+205F and U+3000 take three. *)
Definition space2 (a b : ascii) : bool :=
  match N_of_ascii a, N_of_ascii b with
  | 194, 133 | 194, 160 => true
  | _, _ => false
  end%N.

Definition space3 (a b c : ascii) : bool :=
  match N_of_ascii a, N_of_ascii b, N_of_ascii c with
  | 225, 154, 128 => true
  | 226, 128, z => (128 <=? z)%N && (z <=? 138)%N
                   || (z =? 168)%N || (z =? 169)%N || (z =? 175)%N
  | 226, 129, 159 => true
  | 227, 128, 128 => true
  | _, _, _ => false
  end%N.

(** Drop the white-space runes a string starts with.  [fwd] tells the
    byte order: [true] for a string read from its start, [false] for a
    reversed string (read from its end, as [utf8.DecodeLastRuneInString]
    does). *)
Fixpoint trim_runes (fwd : bool) (s : string) : string :=
  match s with
  | String a s1 =>
      if asciiSpace a then trim_runes fwd s1
      else match s1 with
           | String b s2 =>
               if (if fwd then space2 a b else space2 b a)
               then trim_runes fwd s2
               else match s2 with
                    | String c s3 =>
                        if (if fwd then space3 a b c else space3 c b a)
                        then trim_runes fwd s3
                        else s
                    | EmptyString => s
                    end
           | EmptyString => s
           end
  | EmptyString => s
  end.

Fixpoint rev_app (s acc : string) : string :=
  match s with
  | EmptyString => acc
  | String a s' => rev_app s' (String a acc)
  end.

Definition rev (s : string) : string := rev_app s "".

(** [strings.TrimSpace(s)]: [s] without its leading and trailing white
    space, as defined by Unicode. *)
Definition TrimSpace (s : string) : string :=
  rev (trim_runes false (rev (trim_runes true s))).

(** [bytes.IndexByte(buf, 0)] followed by [buf = buf[:idx]] when
    [idx >= 0]: the bytes before the first NUL. *)
Fixpoint cut_at_nul (buf : string) : string :=
  match buf with
  | EmptyString => ""
  | String a rest =>
      if (N_of_ascii a =? 0)%N then "" else String a (cut_at_nul rest)
  end.

(** [make([]byte, n)] after the driver has written [written] at its
    start: [n] bytes, zero where the driver wrote nothing. *)
Fixpoint fill (n : nat) (written : string) : string :=
  match n with
  | O => ""
  | S n' =>
      match written with
      | EmptyString => String zero (fill n' "")
      | String a rest => String a (fill n' rest)
      end
  end.

End GoString.

Import GoString.

(** ** Data model *)

(** [C.cl_int]; [CL_SUCCESS] is zero. *)
Definition cl_int : Type := Z.
Definition CL_SUCCESS : cl_int := 0%Z.

(** The opaque driver handles ([C.cl_program], [C.cl_device_id],
    [C.cl_kernel]) are pointers: natural numbers, zero for [nil]. *)
Definition cl_program : Type := N.
Definition cl_device_id : Type := N.
Definition cl_kernel : Type := N.

(** [C.size_t], and its conversion [int(size)] to Go's signed 64-bit
    [int]. *)
Definition size_t : Type := N.

Definition to_int (size : size_t) : Z :=
  let z := (Z.of_N size mod 2 ^ 64)%Z in
  if (z <? 2 ^ 63)%Z then z else (z - 2 ^ 64)%Z.

(** [type Device struct { id C.cl_device_id }].  The code only ever reads
    the [id] of a device, never compares two [*Device] pointers, so a
    [*Device] is the device it points to, or [None] for the nil pointer. *)
Record Device : Type := { id : cl_device_id }.
Definition pDevice : Type := option Device.

#[global] Instance Device_eq_dec : EqDecision Device.
Proof. solve_decision. Defined.

(** [type Kernel struct { clKernel C.cl_kernel; name string }] *)
Record Kernel : Type := { clKernel : cl_kernel; name : string }.

(** A [[]*Device] slice header: the nil slice, or a window of [len]
    elements from offset [off] of a backing array.  Capacity is left out:
    no function of this file appends to a slice it was given. *)
Inductive slice : Type :=
| nil_slice
| Slice (arr off len : nat).

Definition slice_len (s : slice) : nat :=
  match s with
  | nil_slice => 0
  | Slice _ _ n => n
  end.

(** [type Program struct { clProgram C.cl_program; devices []*Device }] *)
Record Program : Type := { clProgram : cl_program; devices : slice }.

(** A [*Program]: the address of a [Program] object, [None] for nil. *)
Definition pProgram : Type := option nat.

(** Go [error] values.  [ErrInvalidProgram], [ErrInvalidDevice] and
    [ErrUnknown] are the variables of [types.go] that [program.go] names;
    [ErrCode n] stands for the other error values [types.go] declares;
    [errorString] is what [fmt.Errorf] returns; [BuildError] is the string
    type declared in [program.go].  A nil [error] is [None] in
    [option error]. *)
Inductive error : Type :=
| ErrInvalidProgram
| ErrInvalidDevice
| ErrUnknown
| ErrCode (n : Z)
| errorString (s : string)
| BuildError (s : string).

#[global] Instance error_eq_dec : EqDecision error.
Proof. solve_decision. Defined.

(** ** The state-and-panic monad *)

(** One call into the driver, with the arguments that were passed.
    [call_clGetProgramBuildInfo] is the [CL_PROGRAM_BUILD_LOG] query and
    [call_clGetProgramInfo] the [CL_PROGRAM_DEVICES] query, each with the
    buffer size passed (zero for the size probe); [call_Name] is
    [Device.Name]. *)
Inductive call : Type :=
| call_clReleaseProgram (prog : cl_program)
| call_clBuildProgram (prog : cl_program) (numDevices : Z)
    (deviceList : list cl_device_id) (cOptions : option string)
| call_clCreateKernel (prog : cl_program) (cName : string)
| call_clGetProgramBuildInfo (prog : cl_program) (dev : cl_device_id)
    (size : size_t)
| call_clGetProgramInfo (prog : cl_program) (size : size_t)
| call_Name (dev : cl_device_id).

#[global] Instance call_eq_dec : EqDecision call.
Proof. solve_decision. Defined.

(** The Go heap as far as this file touches it, and the driver calls made
    so far (oldest first). *)
Record World : Type := {
  programs : list Program;
  arrays : list (list pDevice);
  calls : list call
}.

(** A Go function returns or panics. *)
Inductive outcome (A : Type) : Type :=
| Normal (a : A)
| Panic.
Arguments Normal {A} a.
Arguments Panic {A}.

Definition M (A : Type) : Type := World -> outcome A * World.

#[global] Instance M_ret : MRet M := λ A a w, (Normal a, w).

#[global] Instance M_bind : MBind M := λ A B f m w,
  match m w with
  | (Normal a, w') => f a w'
  | (Panic, w') => (Panic, w')
  end.

Definition panic {A} : M A := λ w, (Panic, w).

Definition lift {A} (o : outcome A) : M A := λ w, (o, w).

(** [*p]: a nil pointer dereference panics. *)
Definition load (p : pProgram) : M Program := λ w,
  match p with
  | Some l =>
      match programs w !! l with
      | Some prog => (Normal prog, w)
      | None => (Panic, w)
      end
  | None => (Panic, w)
  end.

Definition store (p : pProgram) (prog : Program) : M unit := λ w,
  match p with
  | Some l =>
      (Normal (),
       {| programs := <[l := prog]> (programs w);
          arrays := arrays w; calls := calls w |})
  | None => (Panic, w)
  end.

(** [p.clProgram = h] and [p.devices = s] *)
Definition set_clProgram (p : pProgram) (h : cl_program) : M unit :=
  prog ← load p; store p {| clProgram := h; devices := devices prog |}.

Definition set_devices (p : pProgram) (s : slice) : M unit :=
  prog ← load p; store p {| clProgram := clProgram prog; devices := s |}.

(** The elements of a slice. *)
Definition elems (w : World) (s : slice) : list pDevice :=
  match s with
  | nil_slice => []
  | Slice a o n => take n (drop o (default [] (arrays w !! a)))
  end.

Definition read (s : slice) : M (list pDevice) := λ w, (Normal (elems w s), w).

(** A slice over a new backing array holding [xs]. *)
Definition alloc (xs : list pDevice) : M slice := λ w,
  (Normal (Slice (length (arrays w)) 0 (length xs)),
   {| programs := programs w; arrays := arrays w ++ [xs]; calls := calls w |}).

(** Record a driver call, and read the calls made so far. *)
Definition emit (c : call) : M unit := λ w,
  (Normal (),
   {| programs := programs w; arrays := arrays w; calls := calls w ++ [c] |}).

Definition history : M (list call) := λ w, (Normal (calls w), w).

(** A function with an unnamed result and a deferred closure that calls
    [recover()].  When [body] returns, the closure finds nothing to
    recover and the result of [body] stands.  When [body] panics, the
    closure recovers and runs [handler] (its assignments go to local
    variables); the function then returns normally, and since no [return]
    statement was executed and the result has no name the closure could
    assign to, it returns the zero value of its result type.  (The Go
    specification, "Defer statements": a deferred function literal can
    change what the surrounding function returns only through named result
    parameters.) *)
Definition recovering {A L} (zero : A) (body : M A) (handler : M L) : M A :=
  λ w,
  match body w with
  | (Normal a, w') => (Normal a, w')
  | (Panic, w') =>
      match handler w' with
      | (Normal _, w'') => (Normal zero, w'')
      | (Panic, w'') => (Panic, w'')
      end
  end.

(** ** What [program.go] uses and does not define

    The driver's answers may depend on everything that was asked before,
    so each driver function takes the calls made so far.  A size probe
    answers a status and the size it wrote; a fetch answers a status and
    what it wrote into the buffer. *)
Record Env : Type := {
  (** [types.go]: the status translator, and the [Error()] text of the
      error values declared there *)
  toError : cl_int -> error;
  statusText : error -> string;
  (** [device.go] *)
  buildDeviceIdList : list pDevice -> outcome (list cl_device_id);
  Device_Name : list call -> Device -> outcome string;
  (** [unsafe.Sizeof] of a [C.cl_device_id] *)
  sizeof_cl_device_id : size_t;
  (** the OpenCL driver *)
  clBuildProgram :
    list call -> cl_program -> Z -> list cl_device_id -> option string -> cl_int;
  clCreateKernel : list call -> cl_program -> string -> cl_kernel * cl_int;
  clGetProgramBuildInfo_size :
    list call -> cl_program -> cl_device_id -> cl_int * size_t;
  clGetProgramBuildInfo_log :
    list call -> cl_program -> cl_device_id -> size_t -> cl_int * string;
  clGetProgramInfo_size : list call -> cl_program -> cl_int * size_t;
  clGetProgramInfo_devices :
    list call -> cl_program -> size_t -> cl_int * list cl_device_id
}.

(** ** The functions of [program.go] *)

Section Methods.

Context (env : Env).

(** [err.Error()], which is also what [%v] prints for an error.
    [BuildError.Error] is defined in [program.go]. *)
Definition Error (e : error) : string :=
  match e with
  | BuildError s => "cl: build error (" +:+ s +:+ ")"
  | errorString s => s
  | _ => statusText env e
  end.

(** [C.CString(s)]: the C string ends at the first NUL byte. *)
Definition CString (s : string) : string := cut_at_nul s.

(** *** Calls into the driver *)

Definition native_clReleaseProgram (h : cl_program) : M unit :=
  emit (call_clReleaseProgram h).

Definition native_clBuildProgram (h : cl_program) (numDevices : Z)
    (deviceList : list cl_device_id) (cOptions : option string) : M cl_int :=
  past ← history;
  emit (call_clBuildProgram h numDevices deviceList cOptions);;
  mret (clBuildProgram env past h numDevices deviceList cOptions).

Definition native_clCreateKernel (h : cl_program) (cName : string)
    : M (cl_kernel * cl_int) :=
  past ← history;
  emit (call_clCreateKernel h cName);;
  mret (clCreateKernel env past h cName).

Definition native_clGetProgramBuildInfo_size (h : cl_program)
    (dev : cl_device_id) : M (cl_int * size_t) :=
  past ← history;
  emit (call_clGetProgramBuildInfo h dev 0%N);;
  mret (clGetProgramBuildInfo_size env past h dev).

Definition native_clGetProgramBuildInfo_log (h : cl_program)
    (dev : cl_device_id) (size : size_t) : M (cl_int * string) :=
  past ← history;
  emit (call_clGetProgramBuildInfo h dev size);;
  mret (clGetProgramBuildInfo_log env past h dev size).

Definition native_clGetProgramInfo_size (h : cl_program)
    : M (cl_int * size_t) :=
  past ← history;
  emit (call_clGetProgramInfo h 0%N);;
  mret (clGetProgramInfo_size env past h).

Definition native_clGetProgramInfo_devices (h : cl_program) (size : size_t)
    : M (cl_int * list cl_device_id) :=
  past ← history;
  emit (call_clGetProgramInfo h size);;
  mret (clGetProgramInfo_devices env past h size).

(** [d.Name()] on a non-nil device: it asks the driver and panics when
    the driver reports an error. *)
Definition Name (d : Device) : M string :=
  past ← history;
  emit (call_Name (id d));;
  lift (Device_Name env past d).

(** *** [releaseProgram] and [Release] *)

Definition releaseProgram (p : pProgram) : M unit :=
  prog ← load p;
  (if negb (clProgram prog =? 0)%N then
     native_clReleaseProgram (clProgram prog);;
     set_clProgram p 0%N
   else mret ());;
  set_devices p nil_slice.

Definition Release (p : pProgram) : M unit := releaseProgram p.

(** *** [deviceIDKey] and [safeDeviceLabel] *)

Definition deviceIDKey (d : pDevice) : N :=
  match d with
  | None => 0%N
  | Some dev => id dev
  end.

(** [fmt.Sprintf("device@0x%x", key)] *)
Definition synthetic_label (key : N) : string :=
  "device@" +:+ HexString.of_N key.

Definition safeDeviceLabel (d : pDevice) : M string :=
  match d with
  | None => mret "device<nil>"
  | Some dev =>
      let key := deviceIDKey d in
      let label := synthetic_label key in
      recovering ""
        (name ← Name dev;
         let name := TrimSpace name in
         let label := if negb (name =? "")%string then name else label in
         mret label)
        (let label := synthetic_label key in mret label)
  end.

(** *** [GetBuildLog]

    [make([]byte, int(size))] panics when [int(size)] is negative.  The
    runtime also refuses a length above its allocation limit; that limit
    is not part of this model, which allocates any other length. *)

Definition GetBuildLog (p : pProgram) (device : pDevice)
    : M (string * option error) :=
  match p with
  | None => mret ("", Some ErrInvalidProgram)
  | Some _ =>
      prog ← load p;
      if (clProgram prog =? 0)%N then mret ("", Some ErrInvalidProgram)
      else
        match device with
        | None => mret ("", Some ErrInvalidDevice)
        | Some dev =>
            '(err, size) ←
              native_clGetProgramBuildInfo_size (clProgram prog) (id dev);
            if negb (err =? CL_SUCCESS)%Z
            then mret ("", Some (toError env err))
            else if (size =? 0)%N then mret ("", None)
            else if (to_int size <? 0)%Z then panic
            else
              let n := Z.to_nat (to_int size) in
              if (n =? 0)%nat then mret ("", None)
              else
                '(err, written) ←
                  native_clGetProgramBuildInfo_log
                    (clProgram prog) (id dev) size;
                if negb (err =? CL_SUCCESS)%Z
                then mret ("", Some (toError env err))
                else mret (cut_at_nul (fill n written), None)
        end
  end.

(** *** [associatedDevices]

    As for [GetBuildLog], the two [make] calls are taken to allocate any
    positive [count]; the allocation limit of the runtime is not part of
    this model. *)

(** [make([]C.cl_device_id, count)] after the driver has written
    [written] at its start. *)
Definition fill_ids (count : nat) (written : list cl_device_id)
    : list cl_device_id :=
  take count (written ++ replicate count 0%N).

(** The loop that wraps the non-nil ids. *)
Fixpoint wrap_ids (ids : list cl_device_id) : list pDevice :=
  match ids with
  | [] => []
  | i :: rest =>
      if (i =? 0)%N then wrap_ids rest
      else Some {| id := i |} :: wrap_ids rest
  end.

Definition associatedDevices (p : pProgram) : M (slice * option error) :=
  match p with
  | None => mret (nil_slice, Some ErrInvalidProgram)
  | Some _ =>
      prog ← load p;
      if (clProgram prog =? 0)%N
      then mret (nil_slice, Some ErrInvalidProgram)
      else
        '(err, size) ← native_clGetProgramInfo_size (clProgram prog);
        if negb (err =? CL_SUCCESS)%Z
        then mret (nil_slice, Some (toError env err))
        else if (size =? 0)%N then mret (nil_slice, None)
        else
          let elemSize := sizeof_cl_device_id env in
          if (elemSize =? 0)%N then mret (nil_slice, Some ErrUnknown)
          else
            let count := to_int (size / elemSize)%N in
            if (count <=? 0)%Z then mret (nil_slice, None)
            else
              '(err, written) ←
                native_clGetProgramInfo_devices (clProgram prog) size;
              if negb (err =? CL_SUCCESS)%Z
              then mret (nil_slice, Some (toError env err))
              else
                devs ← alloc (wrap_ids (fill_ids (Z.to_nat count) written));
                mret (devs, None)
  end.

(** *** [collectDevicesForLogs] *)

(** The closure [add]: [seen] is the key set of the map, [acc] the
    slice [list] being built. *)
Fixpoint add (seen : gset N) (acc : list pDevice) (devs : list pDevice)
    : gset N * list pDevice :=
  match devs with
  | [] => (seen, acc)
  | d :: rest =>
      let key := deviceIDKey d in
      if (key =? 0)%N then add seen acc rest
      else if decide (key ∈ seen) then add seen acc rest
      else add ({[key]} ∪ seen) (acc ++ [d]) rest
  end.

(** The slice it returns is built here and only read by the caller: it
    is given by its elements. *)
Definition collectDevicesForLogs (p : pProgram) (requested : slice)
    : M (list pDevice * option error) :=
  req ← read requested;
  let '(seen, acc) := add ∅ [] req in
  prog ← load p;
  cached ← read (devices prog);
  let '(seen, acc) := add seen acc cached in
  if (length acc =? 0)%nat then
    '(progDevices, err) ← associatedDevices p;
    match err with
    | None =>
        found ← read progDevices;
        mret ((add seen acc found).2, None)
    | Some e => mret ([], Some e)
    end
  else mret (acc, None).

(** *** [collectBuildLogs] *)

Definition unable_section (label : string) (e : error) : string :=
  label +:+ ": <unable to fetch build log: " +:+ Error e +:+ ">".

Definition log_section (label log : string) : string :=
  label +:+ ":" +:+ nl +:+ log.

Fixpoint collectBuildLogs_from (p : pProgram) (logs : list string)
    (devs : list pDevice) : M (list string) :=
  match devs with
  | [] => mret logs
  | dev :: rest =>
      label ← safeDeviceLabel dev;
      '(log, err) ← GetBuildLog p dev;
      match err with
      | Some e =>
          collectBuildLogs_from p (logs ++ [unable_section label e]) rest
      | None =>
          let log := TrimSpace log in
          if (log =? "")%string then collectBuildLogs_from p logs rest
          else collectBuildLogs_from p (logs ++ [log_section label log]) rest
      end
  end.

Definition collectBuildLogs (p : pProgram) (devs : list pDevice)
    : M (list string) :=
  collectBuildLogs_from p [] devs.

(** *** [wrapBuildError] *)

Definition wrapBuildError (p : pProgram) (code : cl_int) (requested : slice)
    : M (option error) :=
  '(devs, err) ← collectDevicesForLogs p requested;
  match err with
  | Some e =>
      mret (Some (errorString
        ("cl: build error (" +:+ Error (toError env code)
           +:+ "; log unavailable: " +:+ Error e +:+ ")")))
  | None =>
      logs ← collectBuildLogs p devs;
      if (length logs =? 0)%nat then mret (Some (toError env code))
      else
        let status := "status=" +:+ Error (toError env code) in
        mret (Some (BuildError (Join (status :: logs) nl)))
  end.

(** *** [BuildProgram]

    [append([]*Device(nil), devices...)] with [len(devices) > 0] allocates
    a backing array and copies the elements of [devices] into it. *)

(** [cOptions]: nil for the empty string, else the C copy of [options]. *)
Definition cOptions_of (options : string) : option string :=
  if negb (options =? "")%string then Some (CString options) else None.

(** [numDevices := C.cl_uint(len(devices))] *)
Definition numDevices_of (devs : slice) : Z :=
  (Z.of_nat (slice_len devs) mod 2 ^ 32)%Z.

(** [deviceList], the array [deviceListPtr] points into: empty (a nil
    pointer) for no devices; else what [buildDeviceIdList] returns, where
    taking the address of its first element panics if it is empty. *)
Definition device_list (devs : slice) : M (list cl_device_id) :=
  if (0 <? slice_len devs)%nat then
    given ← read devs;
    ids ← lift (buildDeviceIdList env given);
    match ids with
    | [] => panic
    | _ => mret ids
    end
  else mret [].

Definition BuildProgram (p : pProgram) (devs : slice) (options : string)
    : M (option error) :=
  let cOptions := cOptions_of options in
  let numDevices := numDevices_of devs in
  deviceList ← device_list devs;
  prog ← load p;
  errCode ←
    native_clBuildProgram (clProgram prog) numDevices deviceList cOptions;
  if negb (errCode =? CL_SUCCESS)%Z then
    buildErr ← wrapBuildError p errCode devs;
    match buildErr with
    | Some e => mret (Some e)
    | None => mret (Some (toError env errCode))
    end
  else if (0 <? slice_len devs)%nat then
    given ← read devs;
    copy ← alloc given;
    set_devices p copy;;
    mret None
  else
    prog ← load p;
    if (slice_len (devices prog) =? 0)%nat then
      '(progDevices, err) ← associatedDevices p;
      (if bool_decide (err = None) && (0 <? slice_len progDevices)%nat
       then set_devices p progDevices
       else mret ());;
      mret None
    else mret None.

(** *** [CreateKernel] *)

(** [runtime.SetFinalizer] registers [releaseKernel] with the garbage
    collector; it has no effect on the state kept here. *)
Definition CreateKernel (p : pProgram) (kname : string)
    : M (option Kernel * option error) :=
  let cName := CString kname in
  prog ← load p;
  '(k, err) ← native_clCreateKernel (clProgram prog) cName;
  if negb (err =? CL_SUCCESS)%Z then mret (None, Some (toError env err))
  else mret (Some {| clKernel := k; name := kname |}, None).

End Methods.

(** The methods are unfolded by name only. *)
Arguments load : simpl never.
Arguments set_clProgram : simpl never.
Arguments set_devices : simpl never.
Arguments Release : simpl never.
Arguments safeDeviceLabel : simpl never.
Arguments GetBuildLog : simpl never.
Arguments associatedDevices : simpl never.
Arguments collectDevicesForLogs : simpl never.
Arguments collectBuildLogs : simpl never.
Arguments wrapBuildError : simpl never.
Arguments BuildProgram : simpl never.
Arguments CreateKernel : simpl never.

(** ** A fake driver for running the code

    [Fake.env status logs assoc]: the build reports [status]; the build log of
    device [dev] is [logs dev] (a status and a text); the devices of the
    program are [assoc] (a status and the ids).  A nil program handle is
    rejected with [CL_INVALID_PROGRAM] (-44).  Device 1 is named "GPU0",
    device 2 "GPU1", the name of device 3 is blank, and naming any other
    device panics. *)
Module Fake.

Definition CL_INVALID_PROGRAM : cl_int := (-44)%Z.
Definition CL_BUILD_PROGRAM_FAILURE : cl_int := (-11)%Z.
Definition CL_INVALID_DEVICE : cl_int := (-33)%Z.

Definition translate (code : cl_int) : error :=
  if (code =? CL_INVALID_PROGRAM)%Z then ErrInvalidProgram
  else if (code =? CL_INVALID_DEVICE)%Z then ErrInvalidDevice
  else ErrCode code.

Definition text (e : error) : string :=
  match e with
  | ErrInvalidProgram => "cl: Invalid Program"
  | ErrInvalidDevice => "cl: Invalid Device"
  | ErrUnknown => "cl: unknown error"
  | ErrCode (-11) => "cl: Build Program Failure"
  | _ => "cl: error"
  end.

Fixpoint id_list (devs : list pDevice)
    : outcome (list cl_device_id) :=
  match devs with
  | [] => Normal []
  | None :: _ => Panic
  | Some d :: rest =>
      match id_list rest with
      | Normal ids => Normal (id d :: ids)
      | Panic => Panic
      end
  end.

Definition name_of (past : list call) (d : Device) : outcome string :=
  match id d with
  | 1%N => Normal "GPU0"
  | 2%N => Normal "GPU1"
  | 3%N => Normal "  "
  | _ => Panic
  end.

Definition nul : string := String zero EmptyString.

Definition env (status : cl_int) (logs : cl_device_id -> cl_int * string)
    (assoc : cl_int * list cl_device_id) : Env :=
  {| toError := translate;
     statusText := text;
     buildDeviceIdList := id_list;
     Device_Name := name_of;
     sizeof_cl_device_id := 8%N;
     clBuildProgram := λ _ h _ _ _,
       if (h =? 0)%N then CL_INVALID_PROGRAM else status;
     clCreateKernel := λ _ h _,
       if (h =? 0)%N then (0%N, CL_INVALID_PROGRAM) else (77%N, CL_SUCCESS);
     clGetProgramBuildInfo_size := λ _ h dev,
       if (h =? 0)%N then (CL_INVALID_PROGRAM, 0%N)
       else ((logs dev).1, N.of_nat (String.length ((logs dev).2 +:+ nul)));
     clGetProgramBuildInfo_log := λ _ h dev _,
       if (h =? 0)%N then (CL_INVALID_PROGRAM, "")
       else ((logs dev).1, (logs dev).2 +:+ nul);
     clGetProgramInfo_size := λ _ h,
       if (h =? 0)%N then (CL_INVALID_PROGRAM, 0%N)
       else (assoc.1, (8 * N.of_nat (length assoc.2))%N);
     clGetProgramInfo_devices := λ _ h _,
       if (h =? 0)%N then (CL_INVALID_PROGRAM, [])
       else assoc |}.

(** No log for any device, no associated device. *)
Definition no_logs (dev : cl_device_id) : cl_int * string := (CL_SUCCESS, "").

(** One program object, with handle 100 and nothing cached. *)
Definition prog0 : Program := {| clProgram := 100%N; devices := nil_slice |}.

Definition world0 : World :=
  {| programs := [ prog0 ];
     arrays := []; calls := [] |}.

Definition d (i : N) : pDevice := Some {| id := i |}.

(** One program object with devices 2 and 3 cached; the caller holds the
    slices [requested1] = [d 1, d 2] and [tokenless] = [a device whose id
    is nil, a nil device]. *)
Definition prog1 : Program := {| clProgram := 100%N; devices := Slice 0 0 2 |}.

Definition world1 : World :=
  {| programs := [ prog1 ];
     arrays := [ [d 2; d 3]; [d 1; d 2]; [Some {| id := 0%N |}; None] ];
     calls := [] |}.

Definition requested1 : slice := Slice 1 0 2.
Definition tokenless : slice := Slice 2 0 2.

(** Device 1 fails to compile with a syntax error, the fetch for
    device 4 is refused, device 5 has a warning, the others are clean. *)
Definition scenario_logs (dev : cl_device_id) : cl_int * string :=
  match dev with
  | 1%N => (CL_SUCCESS, "error: syntax" +:+ nl)
  | 4%N => (CL_INVALID_DEVICE, "")
  | 5%N => (CL_SUCCESS, "warn")
  | _ => (CL_SUCCESS, "")
  end.

(** The fetch for device 2 is refused, device 1 fails to compile. *)
Definition refusing_logs (dev : cl_device_id) : cl_int * string :=
  match dev with
  | 1%N => (CL_SUCCESS, "error: syntax" +:+ nl)
  | 2%N => (CL_INVALID_DEVICE, "")
  | _ => (CL_SUCCESS, "")
  end.

End Fake.

(** * Vocabulary of the specification *)

(** ** Kinds of driver calls *)

Definition is_Name (c : call) : bool :=
  match c with call_Name _ => true | _ => false end.

(** A build-log query: what log collection consists of. *)
Definition is_log_query (c : call) : bool :=
  match c with call_clGetProgramBuildInfo _ _ _ => true | _ => false end.

(** An associated-devices query: what auto-discovery consists of. *)
Definition is_device_query (c : call) : bool :=
  match c with call_clGetProgramInfo _ _ => true | _ => false end.

Definition is_release (c : call) : bool :=
  match c with call_clReleaseProgram _ => true | _ => false end.

(** What the build-log aggregator may ask the driver. *)
Definition is_diagnostic (c : call) : bool :=
  is_Name c || is_log_query c || is_device_query c.

(** The world after one more driver call. *)
Definition logged (w : World) (c : call) : World :=
  {| programs := programs w; arrays := arrays w; calls := calls w ++ [c] |}.

(** ** What a computation may touch

    [steps P m]: running [m] leaves the [Program] objects alone, leaves
    every backing array that exists alone (it may allocate new ones), and
    makes only driver calls that satisfy [P]. *)

Definition steps {A} (P : call → bool) (m : M A) : Prop :=
  ∀ w,
    programs (m w).2 = programs w ∧
    arrays w `prefix_of` arrays (m w).2 ∧
    ∃ new, calls (m w).2 = calls w ++ new ∧ forallb P new = true.

(** ** Slices the caller holds *)

(** A slice whose backing array exists in [w]. *)
Definition allocated (w : World) (s : slice) : Prop :=
  match s with
  | nil_slice => True
  | Slice a _ _ => a < length (arrays w)
  end.

(** [s[i] = x] by the caller; out of range the assignment panics and
    nothing is written. *)
Definition write (w : World) (s : slice) (i : nat) (x : pDevice) : World :=
  match s with
  | nil_slice => w
  | Slice a o n =>
      if (i <? n)%nat then
        {| programs := programs w;
           arrays := alter (λ xs, <[o + i := x]> xs) a (arrays w);
           calls := calls w |}
      else w
  end.

(** The cached device list of the program at address [l]. *)
Definition cached (w : World) (l : nat) : list pDevice :=
  match programs w !! l with
  | Some prog => elems w (devices prog)
  | None => []
  end.

(** ** Device-set resolution *)

(** The devices that carry an identity token: a nil [*Device] and a
    device whose id is nil have none. *)
Definition with_token (l : list pDevice) : list pDevice :=
  filter (λ d, deviceIDKey d ≠ 0%N) l.

(** Deduplication by identity token: the first occurrence stays, every
    later device with the same token is dropped, order is kept. *)
Fixpoint dedup_by_token (l : list pDevice) : list pDevice :=
  match l with
  | [] => []
  | d :: rest =>
      d :: filter (λ d', deviceIDKey d' ≠ deviceIDKey d) (dedup_by_token rest)
  end.

(** ** Labels *)

(** The label of a non-nil device, by what [Name] does. *)
Definition label_of (key : N) (named : outcome string) : string :=
  match named with
  | Normal n =>
      if (TrimSpace n =? "")%string then synthetic_label key else TrimSpace n
  | Panic => ""
  end.

(** ** Sections of a composite build error *)

(** What one device contributes, given its label and the result of
    fetching its log: a failed fetch gives the "unable to fetch" line, a
    log that is blank after trimming gives nothing, any other log gives
    the label and the trimmed log. *)
Definition contribution (env : Env) (label : string)
    (fetch : string * option error) : list string :=
  match fetch with
  | (_, Some e) => [unable_section env label e]
  | (log, None) =>
      if (TrimSpace log =? "")%string then []
      else [log_section label (TrimSpace log)]
  end.

(** Label, then fetch, for each device in turn. *)
Fixpoint fetch_all (env : Env) (p : pProgram) (devs : list pDevice)
    : M (list (string * (string * option error))) :=
  match devs with
  | [] => mret []
  | d :: rest =>
      label ← safeDeviceLabel env d;
      fetch ← GetBuildLog env p d;
      fetched ← fetch_all env p rest;
      mret ((label, fetch) :: fetched)
  end.

Definition sections (env : Env)
    (fetched : list (string * (string * option error))) : list string :=
  flat_map (λ lf, contribution env lf.1 lf.2) fetched.

(** The first line of a composite build error. *)
Definition status_line (env : Env) (code : cl_int) : string :=
  "status=" +:+ Error env (toError env code).

(** The error [wrapBuildError] returns when no device can be found. *)
Definition log_unavailable (env : Env) (code : cl_int) (e : error) : error :=
  errorString ("cl: build error (" +:+ Error env (toError env code)
                 +:+ "; log unavailable: " +:+ Error env e +:+ ")").

(** [t] occurs in [s]. *)
Definition contains (s t : string) : Prop :=
  ∃ before after, s = before +:+ t +:+ after.

(** The driver call [BuildProgram] makes. *)
Definition build_call (prog : Program) (devs : slice)
    (ids : list cl_device_id) (options : string) : call :=
  call_clBuildProgram (clProgram prog) (numDevices_of devs) ids
    (cOptions_of options).

(** The status the driver answers to that call in world [w]. *)
Definition build_status (env : Env) (w : World) (prog : Program)
    (devs : slice) (ids : list cl_device_id) (options : string) : cl_int :=
  clBuildProgram env (calls w) (clProgram prog) (numDevices_of devs) ids
    (cOptions_of options).

(** ** Further vocabulary *)

(** [CL_INVALID_PROGRAM] of the OpenCL headers. *)
Definition CL_INVALID_PROGRAM : cl_int := (-44)%Z.

(** The contract of the parts that are not in [program.go], for a nil
    program handle: the driver refuses to create a kernel from it and to
    build it, with the status [CL_INVALID_PROGRAM], and the status
    translator maps that status to [ErrInvalidProgram]. *)
Definition rejects_nil_handle (env : Env) : Prop :=
  (∀ past cName, (clCreateKernel env past 0%N cName).2 = CL_INVALID_PROGRAM) ∧
  (∀ past numDevices deviceList cOptions,
     clBuildProgram env past 0%N numDevices deviceList cOptions
       = CL_INVALID_PROGRAM) ∧
  toError env CL_INVALID_PROGRAM = ErrInvalidProgram.

(** A buffer length that [make] does not refuse.  The Go runtime panics
    ("len out of range") for a slice above its allocation limit, which is
    2^33 bytes or more on every 64-bit port; the functions above model
    only the panic for a negative length.  A property that says a buffer
    of a size reported by the driver is allocated and filled is therefore
    stated for sizes up to this bound. *)
Definition allocatable (size : size_t) : Prop := (size ≤ 2 ^ 32)%N.

Definition is_build (c : call) : bool :=
  match c with call_clBuildProgram _ _ _ _ => true | _ => false end.

(** [s] holds a NUL byte. *)
Fixpoint has_nul (s : string) : bool :=
  match s with
  | EmptyString => false
  | String a rest => (N_of_ascii a =? 0)%N || has_nul rest
  end.

(** * Properties *)

(** ** The string functions on examples *)

Example TrimSpace_log : TrimSpace ("  error: syntax" +:+ nl) = "error: syntax".
Proof. reflexivity. Qed.

Example TrimSpace_no_break_space :
  TrimSpace (String (ascii_of_N 194) (String (ascii_of_N 160) " x ")) = "x".
Proof. reflexivity. Qed.

Example TrimSpace_blank : TrimSpace (" " +:+ nl +:+ "  ") = "".
Proof. reflexivity. Qed.

Example Join_three :
  Join ["a"; "b"; "c"] nl = "a" +:+ nl +:+ "b" +:+ nl +:+ "c".
Proof. reflexivity. Qed.

Example cut_at_nul_log :
  cut_at_nul (fill 6 ("err" +:+ Fake.nul)) = "err".
Proof. reflexivity. Qed.

Example synthetic_label_hex : synthetic_label 255%N = "device@0xff".
Proof. reflexivity. Qed.

Example to_int_wraps : to_int (2 ^ 64 - 1)%N = (-1)%Z.
Proof. reflexivity. Qed.

(** ** Running the monad *)

Lemma run_bind {A B} (m : M A) (f : A → M B) (w : World) :
  (m ≫= f) w =
  match m w with
  | (Normal a, w') => f a w'
  | (Panic, w') => (Panic, w')
  end.
Proof. reflexivity. Qed.

Lemma run_bind_normal {A B} (m : M A) (f : A → M B) w a w' :
  m w = (Normal a, w') → (m ≫= f) w = f a w'.
Proof. intros H. rewrite run_bind, H. reflexivity. Qed.

Lemma steps_weaken {A} (P Q : call → bool) (m : M A) :
  (∀ c, P c = true → Q c = true) → steps P m → steps Q m.
Proof.
  intros HPQ Hm w. destruct (Hm w) as (Hp & Ha & new & Hc & Hall).
  split; [done|]. split; [done|]. exists new. split; [done|].
  apply forallb_forall. intros c Hin. apply HPQ.
  by eapply forallb_forall in Hall.
Qed.

Lemma steps_ret {A} P (a : A) : steps P (mret a).
Proof.
  intros w. simpl. split; [done|]. split; [done|].
  exists []. by rewrite app_nil_r.
Qed.

Lemma steps_bind {A B} P (m : M A) (f : A → M B) :
  steps P m → (∀ a, steps P (f a)) → steps P (m ≫= f).
Proof.
  intros Hm Hf w. rewrite run_bind.
  destruct (Hm w) as (Hp & Ha & new & Hc & Hall).
  destruct (m w) as [[a|] w1]; simpl in *.
  - destruct (Hf a w1) as (Hp' & Ha' & new' & Hc' & Hall').
    split; [congruence|]. split; [by etrans|].
    exists (new ++ new'). split.
    + rewrite Hc', Hc. by rewrite app_assoc.
    + rewrite forallb_app, Hall, Hall'. done.
  - split; [done|]. split; [done|]. by exists new.
Qed.

Lemma steps_panic {A} P : steps P (@panic A).
Proof. exact (steps_ret P ()). Qed.

Lemma steps_lift {A} P (o : outcome A) : steps P (lift o).
Proof. exact (steps_ret P ()). Qed.

Lemma steps_history P : steps P history.
Proof. exact (steps_ret P ()). Qed.

Lemma steps_read P s : steps P (read s).
Proof. exact (steps_ret P ()). Qed.

Lemma steps_load P p : steps P (load p).
Proof.
  intros w. unfold load. destruct p as [l|]; [|apply (steps_ret P ())].
  destruct (programs w !! l); apply (steps_ret P ()).
Qed.

Lemma steps_emit (P : call → bool) c : P c = true → steps P (emit c).
Proof.
  intros HP w. simpl. split; [done|]. split; [done|].
  exists [c]. split; [done|]. simpl. by rewrite HP.
Qed.

Lemma steps_alloc P xs : steps P (alloc xs).
Proof.
  intros w. simpl. split; [done|]. split; [by apply prefix_app_r|].
  exists []. by rewrite app_nil_r.
Qed.

Lemma steps_recovering {A L} P (zero : A) (body : M A) (handler : M L) :
  steps P body → steps P handler → steps P (recovering zero body handler).
Proof.
  intros Hb Hh w. unfold recovering.
  destruct (Hb w) as (Hp & Ha & new & Hc & Hall).
  destruct (body w) as [[a|] w1]; simpl in *.
  - split; [done|]. split; [done|]. by exists new.
  - destruct (Hh w1) as (Hp' & Ha' & new' & Hc' & Hall').
    assert (programs (handler w1).2 = programs w) by congruence.
    assert (arrays w `prefix_of` arrays (handler w1).2) by (by etrans).
    assert (∃ n, calls (handler w1).2 = calls w ++ n ∧ forallb P n = true).
    { exists (new ++ new'). rewrite Hc', Hc, <- app_assoc, forallb_app.
      by rewrite Hall, Hall'. }
    destruct (handler w1) as [[x|] w2]; simpl in *; done.
Qed.

Ltac steps_go :=
  repeat first
    [ apply steps_ret | apply steps_panic | apply steps_lift
    | apply steps_history | apply steps_read | apply steps_load
    | apply steps_alloc
    | apply steps_emit; reflexivity
    | apply steps_recovering
    | apply steps_bind; [| intros ?]
    | match goal with
      | |- steps _ (match ?x with _ => _ end) => destruct x
      | |- steps _ (let '(_, _) := ?x in _) => destruct x
      end ].

Section Footprints.

Context (env : Env).

Lemma steps_Name dev : steps is_Name (Name env dev).
Proof. unfold Name. steps_go. Qed.

Lemma steps_safeDeviceLabel d : steps is_Name (safeDeviceLabel env d).
Proof. unfold safeDeviceLabel, Name. steps_go. Qed.

Lemma steps_GetBuildLog p d : steps is_log_query (GetBuildLog env p d).
Proof.
  unfold GetBuildLog, native_clGetProgramBuildInfo_size,
    native_clGetProgramBuildInfo_log.
  steps_go.
Qed.

Lemma steps_associatedDevices p :
  steps is_device_query (associatedDevices env p).
Proof.
  unfold associatedDevices, native_clGetProgramInfo_size,
    native_clGetProgramInfo_devices.
  steps_go.
Qed.

Lemma steps_collectDevicesForLogs p requested :
  steps is_device_query (collectDevicesForLogs env p requested).
Proof.
  unfold collectDevicesForLogs. steps_go.
  apply steps_associatedDevices.
Qed.

Lemma steps_collectBuildLogs_from p devs : ∀ logs,
  steps is_diagnostic (collectBuildLogs_from env p logs devs).
Proof.
  induction devs as [|d rest IH]; intros logs; simpl.
  - apply steps_ret.
  - apply steps_bind.
    { eapply steps_weaken; [|apply steps_safeDeviceLabel].
      by intros [] H. }
    intros label. apply steps_bind.
    { eapply steps_weaken; [|apply steps_GetBuildLog].
      by intros [] H. }
    intros [log [e|]]; [apply IH|].
    destruct (TrimSpace log =? "")%string; apply IH.
Qed.

Lemma steps_wrapBuildError p code requested :
  steps is_diagnostic (wrapBuildError env p code requested).
Proof.
  unfold wrapBuildError. apply steps_bind.
  { eapply steps_weaken; [|apply steps_collectDevicesForLogs].
    by intros [] H. }
  intros [devs [e|]]; [apply steps_ret|].
  apply steps_bind; [apply steps_collectBuildLogs_from|].
  intros logs. destruct (length logs =? 0)%nat; apply steps_ret.
Qed.

End Footprints.

(** ** The [Program] object behind a pointer *)

Lemma load_run w l prog :
  programs w !! l = Some prog → load (Some l) w = (Normal prog, w).
Proof. intros H. unfold load. by rewrite H. Qed.

Lemma set_clProgram_run w l prog h :
  programs w !! l = Some prog →
  set_clProgram (Some l) h w =
    (Normal (),
     {| programs := <[l := {| clProgram := h; devices := devices prog |}]>
                      (programs w);
        arrays := arrays w; calls := calls w |}).
Proof.
  intros H. unfold set_clProgram.
  by rewrite (run_bind_normal _ _ _ _ _ (load_run _ _ _ H)).
Qed.

Lemma set_devices_run w l prog s :
  programs w !! l = Some prog →
  set_devices (Some l) s w =
    (Normal (),
     {| programs := <[l := {| clProgram := clProgram prog; devices := s |}]>
                      (programs w);
        arrays := arrays w; calls := calls w |}).
Proof.
  intros H. unfold set_devices.
  by rewrite (run_bind_normal _ _ _ _ _ (load_run _ _ _ H)).
Qed.

(** ** [Release] *)

(** The calls [Release] makes for a handle: one [clReleaseProgram] when
    the handle is present, none when it is nil. *)
Lemma Release_run w l prog :
  programs w !! l = Some prog →
  Release (Some l) w =
    (Normal (),
     {| programs := <[l := {| clProgram := 0%N; devices := nil_slice |}]>
                      (programs w);
        arrays := arrays w;
        calls := calls w ++
                 (if (clProgram prog =? 0)%N then []
                  else [call_clReleaseProgram (clProgram prog)]) |}).
Proof.
  intros H. unfold Release, releaseProgram.
  rewrite (run_bind_normal _ _ _ _ _ (load_run _ _ _ H)).
  assert (Hlt : l < length (programs w)) by (by eapply lookup_lt_Some).
  destruct (clProgram prog =? 0)%N eqn:Hh; simpl.
  - apply N.eqb_eq in Hh.
    rewrite run_bind; simpl.
    rewrite (set_devices_run _ _ _ _ H), Hh, app_nil_r. reflexivity.
  - rewrite !run_bind. unfold native_clReleaseProgram, emit.
    erewrite set_clProgram_run by exact H. simpl.
    erewrite set_devices_run by (by apply list_lookup_insert_eq). simpl.
    by rewrite list_insert_insert_eq.
Qed.

(** C9. Calling [Release] twice on a [Program] leaves exactly the state that
    calling it once leaves, and signals no error.  Over both calls the
    driver sees at most one [clReleaseProgram] (exactly one, for the handle
    the program held, when it held one), and afterwards the handle is nil
    and the cached device list is cleared. *)
Theorem Release_idempotent (w : World) (l : nat) (prog : Program) :
  programs w !! l = Some prog →
  let once := Release (Some l) w in
  let twice := (Release (Some l);; Release (Some l)) w in
  twice = once ∧
  twice.1 = Normal () ∧
  programs twice.2 !! l = Some {| clProgram := 0%N; devices := nil_slice |} ∧
  ∃ new,
    calls twice.2 = calls w ++ new ∧
    length (List.filter is_release new) ≤ 1 ∧
    new = if (clProgram prog =? 0)%N then []
          else [call_clReleaseProgram (clProgram prog)].
Proof.
  intros H once twice.
  assert (Hlt : l < length (programs w)) by (by eapply lookup_lt_Some).
  assert (Htwice : twice = once).
  { subst once twice. rewrite run_bind, (Release_run _ _ _ H).
    erewrite Release_run by (by apply list_lookup_insert_eq). simpl.
    by rewrite list_insert_insert_eq, app_nil_r. }
  rewrite Htwice. subst once. rewrite (Release_run _ _ _ H). simpl.
  split; [done|]. split; [done|].
  split; [by apply list_lookup_insert_eq|].
  eexists. split; [done|]. split; [|done].
  destruct (clProgram prog =? 0)%N; simpl; lia.
Qed.

Lemma Release_idempotent_witness :
  programs Fake.world0 !! 0 =
    Some {| clProgram := 100%N; devices := nil_slice |} ∧
  (Release (Some 0);; Release (Some 0)) Fake.world0 =
    Release (Some 0) Fake.world0.
Proof.
  split; [reflexivity|].
  exact (proj1 (Release_idempotent Fake.world0 0 _ eq_refl)).
Defined.

(** ** Driver calls, run *)

Section Runs.

Context (env : Env).

Lemma native_clBuildProgram_run h n ids o w :
  native_clBuildProgram env h n ids o w =
    (Normal (clBuildProgram env (calls w) h n ids o),
     logged w (call_clBuildProgram h n ids o)).
Proof. reflexivity. Qed.

Lemma native_clCreateKernel_run h cName w :
  native_clCreateKernel env h cName w =
    (Normal (clCreateKernel env (calls w) h cName),
     logged w (call_clCreateKernel h cName)).
Proof. reflexivity. Qed.

Lemma native_clGetProgramBuildInfo_size_run h dev w :
  native_clGetProgramBuildInfo_size env h dev w =
    (Normal (clGetProgramBuildInfo_size env (calls w) h dev),
     logged w (call_clGetProgramBuildInfo h dev 0%N)).
Proof. reflexivity. Qed.

Lemma native_clGetProgramBuildInfo_log_run h dev size w :
  native_clGetProgramBuildInfo_log env h dev size w =
    (Normal (clGetProgramBuildInfo_log env (calls w) h dev size),
     logged w (call_clGetProgramBuildInfo h dev size)).
Proof. reflexivity. Qed.

Lemma native_clGetProgramInfo_size_run h w :
  native_clGetProgramInfo_size env h w =
    (Normal (clGetProgramInfo_size env (calls w) h),
     logged w (call_clGetProgramInfo h 0%N)).
Proof. reflexivity. Qed.

Lemma native_clGetProgramInfo_devices_run h size w :
  native_clGetProgramInfo_devices env h size w =
    (Normal (clGetProgramInfo_devices env (calls w) h size),
     logged w (call_clGetProgramInfo h size)).
Proof. reflexivity. Qed.

Lemma Name_run dev w :
  Name env dev w = (Device_Name env (calls w) dev, logged w (call_Name (id dev))).
Proof. reflexivity. Qed.

(** ** [safeDeviceLabel] *)

Lemma safeDeviceLabel_run dev w :
  safeDeviceLabel env (Some dev) w =
    (Normal (label_of (id dev) (Device_Name env (calls w) dev)),
     logged w (call_Name (id dev))).
Proof.
  unfold safeDeviceLabel, recovering. rewrite run_bind, Name_run.
  destruct (Device_Name env (calls w) dev) as [n|]; simpl; [|done].
  by destruct (TrimSpace n =? "")%string.
Qed.

Lemma safeDeviceLabel_nil w :
  safeDeviceLabel env None w = (Normal "device<nil>", w).
Proof. reflexivity. Qed.

(** No panic leaves [safeDeviceLabel]. *)
Lemma safeDeviceLabel_returns d w :
  ∃ label, (safeDeviceLabel env d w).1 = Normal label.
Proof.
  destruct d as [dev|].
  - rewrite safeDeviceLabel_run. by eexists.
  - by eexists.
Qed.

(** A name that is blank after trimming gives the synthetic label. *)
Lemma safeDeviceLabel_blank dev w n :
  Device_Name env (calls w) dev = Normal n →
  TrimSpace n = "" →
  (safeDeviceLabel env (Some dev) w).1 = Normal (synthetic_label (id dev)).
Proof.
  intros Hn Hblank. rewrite safeDeviceLabel_run, Hn. simpl.
  by rewrite Hblank.
Qed.

(** A panic inside [Name] is recovered, and the label is then empty. *)
Lemma safeDeviceLabel_panic dev w :
  Device_Name env (calls w) dev = Panic →
  (safeDeviceLabel env (Some dev) w).1 = Normal "".
Proof. intros Hn. by rewrite safeDeviceLabel_run, Hn. Qed.

End Runs.

(** C2 (the code departs from it). Naming device 0x2a panics in the fake
    driver.  [safeDeviceLabel] recovers from the panic, and what it then
    returns is the empty string, not the synthetic label "device@0x2a"
    that the deferred closure assigns to its local variable. *)
Theorem safeDeviceLabel_recovered_label_is_empty :
  let env := Fake.env Fake.CL_BUILD_PROGRAM_FAILURE Fake.no_logs
               (CL_SUCCESS, []) in
  Device_Name env (calls Fake.world0) {| id := 42%N |} = Panic ∧
  (safeDeviceLabel env (Fake.d 42) Fake.world0).1 = Normal "" ∧
  synthetic_label (deviceIDKey (Fake.d 42)) = "device@0x2a" ∧
  (safeDeviceLabel env (Fake.d 42) Fake.world0).1
    ≠ Normal (synthetic_label (deviceIDKey (Fake.d 42))).
Proof. repeat split; try reflexivity. discriminate. Qed.

(** ** [GetBuildLog] on a program without handle *)

Lemma GetBuildLog_released env w l prog d :
  programs w !! l = Some prog →
  clProgram prog = 0%N →
  GetBuildLog env (Some l) d w = (Normal ("", Some ErrInvalidProgram), w).
Proof.
  intros H Hh. unfold GetBuildLog.
  rewrite (run_bind_normal _ _ _ _ _ (load_run _ _ _ H)).
  by rewrite Hh.
Qed.

Lemma associatedDevices_released env w l prog :
  programs w !! l = Some prog →
  clProgram prog = 0%N →
  associatedDevices env (Some l) w =
    (Normal (nil_slice, Some ErrInvalidProgram), w).
Proof.
  intros H Hh. unfold associatedDevices.
  rewrite (run_bind_normal _ _ _ _ _ (load_run _ _ _ H)).
  by rewrite Hh.
Qed.

(** ** The loop of [collectBuildLogs], device by device *)

Lemma collectBuildLogs_from_fetch_all env p devs : ∀ logs w,
  collectBuildLogs_from env p logs devs w =
    (fetched ← fetch_all env p devs; mret (logs ++ sections env fetched)) w.
Proof.
  induction devs as [|d rest IH]; intros logs w; simpl.
  - rewrite run_bind. simpl. by rewrite app_nil_r.
  - rewrite !run_bind.
    destruct (safeDeviceLabel env d w) as [[label|] w1]; [|done].
    rewrite !run_bind.
    destruct (GetBuildLog env p d w1) as [[[log err]|] w2]; [|done].
    rewrite run_bind.
    assert (Hrest : ∀ acc,
      collectBuildLogs_from env p acc rest w2 =
      match fetch_all env p rest w2 with
      | (Normal fs, w3) => (Normal (acc ++ sections env fs), w3)
      | (Panic, w3) => (Panic, w3)
      end).
    { intros acc. rewrite IH, run_bind.
      by destruct (fetch_all env p rest w2) as [[fs|] w3]. }
    destruct err as [e|].
    + rewrite Hrest.
      destruct (fetch_all env p rest w2) as [[fs|] w3]; simpl; [|done].
      by rewrite <- app_assoc.
    + destruct (TrimSpace log =? "")%string eqn:Hblank; rewrite Hrest;
        destruct (fetch_all env p rest w2) as [[fs|] w3]; simpl;
        rewrite ?Hblank; try done.
      by rewrite <- app_assoc.
Qed.

Lemma collectBuildLogs_fetch_all env p devs w :
  collectBuildLogs env p devs w =
    (fetched ← fetch_all env p devs; mret (sections env fetched)) w.
Proof. unfold collectBuildLogs. by rewrite collectBuildLogs_from_fetch_all. Qed.

Lemma steps_fetch_all env p devs : steps is_diagnostic (fetch_all env p devs).
Proof.
  induction devs as [|d rest IH]; simpl; [apply steps_ret|].
  apply steps_bind.
  { eapply steps_weaken; [|apply steps_safeDeviceLabel]. by intros [] H. }
  intros label. apply steps_bind.
  { eapply steps_weaken; [|apply steps_GetBuildLog]. by intros [] H. }
  intros fetch. apply steps_bind; [done|]. intros fs. apply steps_ret.
Qed.

(** ** [BuildProgram] when the driver reports a failure *)

Lemma BuildProgram_failed env w l prog devs options ids :
  programs w !! l = Some prog →
  device_list env devs w = (Normal ids, w) →
  build_status env w prog devs ids options ≠ CL_SUCCESS →
  BuildProgram env (Some l) devs options w =
    (buildErr ←
       wrapBuildError env (Some l) (build_status env w prog devs ids options)
         devs;
     match buildErr with
     | Some e => mret (Some e)
     | None =>
         mret (Some (toError env (build_status env w prog devs ids options)))
     end)
      (logged w (build_call prog devs ids options)).
Proof.
  intros H Hids Hcode. unfold BuildProgram.
  rewrite (run_bind_normal _ _ _ _ _ Hids).
  rewrite (run_bind_normal _ _ _ _ _ (load_run _ _ _ H)).
  rewrite run_bind, native_clBuildProgram_run.
  fold (build_status env w prog devs ids options).
  destruct (build_status env w prog devs ids options =? CL_SUCCESS)%Z eqn:E.
  - by apply Z.eqb_eq in E.
  - reflexivity.
Qed.

Lemma prefix_lookup {A} (l1 l2 : list A) i x :
  l1 `prefix_of` l2 → l1 !! i = Some x → l2 !! i = Some x.
Proof. intros [k ->] H. by apply lookup_app_l_Some. Qed.

Lemma elems_kept w w' s :
  (∀ a xs, arrays w !! a = Some xs → arrays w' !! a = Some xs) →
  allocated w s → elems w' s = elems w s.
Proof.
  intros Hkeep Hs. destruct s as [|a o n]; [done|]. simpl in *.
  destruct (lookup_lt_is_Some_2 _ _ Hs) as [xs Hxs].
  by rewrite (Hkeep _ _ Hxs), Hxs.
Qed.

(** C10. If the driver reports a build failure, [BuildProgram] leaves
    every [Program] object as it was (handle and cached device slice), and
    every backing array that existed as it was: the cached device list is
    unchanged, whatever the aggregator then does or returns. *)
Theorem BuildProgram_failure_keeps_program env w l prog devs options ids :
  programs w !! l = Some prog →
  device_list env devs w = (Normal ids, w) →
  build_status env w prog devs ids options ≠ CL_SUCCESS →
  let w' := (BuildProgram env (Some l) devs options w).2 in
  programs w' = programs w ∧
  programs w' !! l = Some prog ∧
  (∀ a xs, arrays w !! a = Some xs → arrays w' !! a = Some xs) ∧
  (allocated w (devices prog) → cached w' l = cached w l).
Proof.
  intros H Hids Hcode w'.
  assert (Hkeep : programs w' = programs w ∧
                  arrays w `prefix_of` arrays w').
  { subst w'. rewrite (BuildProgram_failed _ _ _ _ _ _ _ H Hids Hcode).
    set (c := build_status env w prog devs ids options).
    assert (Hsteps : steps is_diagnostic
      (buildErr ← wrapBuildError env (Some l) c devs;
       match buildErr with
       | Some e => mret (Some e)
       | None => mret (Some (toError env c))
       end)).
    { apply steps_bind; [apply steps_wrapBuildError|].
      intros [e|]; apply steps_ret. }
    destruct (Hsteps (logged w (build_call prog devs ids options)))
      as (Hp & Ha & _).
    done. }
  destruct Hkeep as [Hp Ha].
  assert (Harr : ∀ a xs, arrays w !! a = Some xs → arrays w' !! a = Some xs).
  { intros a xs Hx. by eapply prefix_lookup. }
  split; [done|]. split; [by rewrite Hp|]. split; [done|].
  intros Halloc. unfold cached. rewrite Hp, H. by apply elems_kept.
Qed.

Lemma BuildProgram_failure_keeps_program_witness :
  let env :=
    Fake.env Fake.CL_BUILD_PROGRAM_FAILURE Fake.scenario_logs (CL_SUCCESS, [])
  in
  let w' := (BuildProgram env (Some 0) Fake.requested1 "-O2" Fake.world1).2 in
  programs w' = programs Fake.world1 ∧
  cached w' 0 = [Fake.d 2; Fake.d 3].
Proof.
  intros env w'.
  destruct (BuildProgram_failure_keeps_program env Fake.world1 0 Fake.prog1
              Fake.requested1 "-O2" [1%N; 2%N])
    as (Hprogs & _ & _ & Hcached);
    [reflexivity | reflexivity | discriminate |].
  split; [exact Hprogs|].
  apply Hcached. simpl. lia.
Defined.

(** ** The closure [add] against deduplication by token *)

Lemma add_app seen acc l1 l2 :
  add seen acc (l1 ++ l2) = add (add seen acc l1).1 (add seen acc l1).2 l2.
Proof.
  revert seen acc. induction l1 as [|d rest IH]; intros seen acc; simpl.
  - done.
  - destruct (deviceIDKey d =? 0)%N; [apply IH|].
    destruct (decide (deviceIDKey d ∈ seen)); apply IH.
Qed.

Lemma add_dedup l : ∀ (seen : gset N) acc,
  (add seen acc l).2 =
    acc ++ filter (λ d, deviceIDKey d ∉ seen) (dedup_by_token (with_token l)).
Proof.
  unfold with_token.
  induction l as [|d rest IH]; intros seen acc; simpl.
  - by rewrite app_nil_r.
  - destruct (deviceIDKey d =? 0)%N eqn:Hz.
    + apply N.eqb_eq in Hz. rewrite filter_cons_False by naive_solver.
      apply IH.
    + apply N.eqb_neq in Hz. rewrite filter_cons_True by done. simpl.
      destruct (decide (deviceIDKey d ∈ seen)) as [Hin|Hout].
      * rewrite filter_cons_False by naive_solver.
        rewrite list_filter_filter, IH. f_equal.
        apply list_filter_iff. intros d'. split; [|by intros [? _]].
        intros Hd'. split; [done|]. intros Heq. by rewrite Heq in Hd'.
      * rewrite filter_cons_True by done.
        rewrite list_filter_filter, IH, <- app_assoc. simpl.
        do 2 f_equal. apply list_filter_iff. intros d'.
        rewrite not_elem_of_union, not_elem_of_singleton. tauto.
Qed.

Lemma filter_all {A} (P : A → Prop) `{∀ x, Decision (P x)} (l : list A) :
  (∀ x, P x) → filter P l = l.
Proof.
  intros HP. induction l as [|x l IH]; [done|].
  rewrite filter_cons_True by done. by rewrite IH.
Qed.

Lemma add_resolves l :
  (add ∅ [] l).2 = dedup_by_token (with_token l).
Proof. rewrite add_dedup. simpl. apply filter_all. set_solver. Qed.

(** The map [seen] holds the tokens of the devices collected so far. *)
Lemma add_seen l : ∀ (seen : gset N) acc,
  seen = list_to_set (deviceIDKey <$> acc) →
  (add seen acc l).1 = list_to_set (deviceIDKey <$> (add seen acc l).2).
Proof.
  induction l as [|d rest IH]; intros seen acc Hinv; simpl; [done|].
  destruct (deviceIDKey d =? 0)%N; [by apply IH|].
  destruct (decide (deviceIDKey d ∈ seen)); [by apply IH|].
  apply IH. rewrite fmap_app, list_to_set_app_L. simpl.
  rewrite <- Hinv. by rewrite union_empty_r_L, (comm_L (∪)).
Qed.

Lemma add_nothing_seen l :
  (add ∅ [] l).2 = [] → (add ∅ [] l).1 = ∅.
Proof. intros H. rewrite (add_seen l ∅ []) by done. by rewrite H. Qed.

(** ** [collectDevicesForLogs] *)

Lemma collectDevicesForLogs_run env w l prog requested :
  programs w !! l = Some prog →
  collectDevicesForLogs env (Some l) requested w =
    let union :=
      dedup_by_token (with_token (elems w requested ++ elems w (devices prog)))
    in
    match union with
    | _ :: _ => (Normal (union, None), w)
    | [] =>
        match associatedDevices env (Some l) w with
        | (Normal (s, None), w') =>
            (Normal (dedup_by_token (with_token (elems w' s)), None), w')
        | (Normal (_, Some e), w') => (Normal ([], Some e), w')
        | (Panic, w') => (Panic, w')
        end
    end.
Proof.
  intros H. unfold collectDevicesForLogs.
  rewrite run_bind. simpl.
  destruct (add ∅ [] (elems w requested)) as [seen1 acc1] eqn:E1.
  rewrite (run_bind_normal _ _ _ _ _ (load_run _ _ _ H)).
  rewrite run_bind. simpl.
  pose proof (add_app ∅ [] (elems w requested) (elems w (devices prog))) as Happ.
  rewrite E1 in Happ. simpl in Happ.
  destruct (add seen1 acc1 (elems w (devices prog))) as [seen2 acc2] eqn:E2.
  pose proof (add_resolves (elems w requested ++ elems w (devices prog))) as Hres.
  rewrite Happ in Hres. simpl in Hres. rewrite <- Hres.
  destruct acc2 as [|d acc2]; simpl; [|done].
  assert (seen2 = ∅) as ->.
  { pose proof (add_nothing_seen
      (elems w requested ++ elems w (devices prog))) as Hs.
    rewrite Happ in Hs. simpl in Hs. by apply Hs. }
  rewrite run_bind.
  destruct (associatedDevices env (Some l) w) as [[[s [e|]]|] w']; try done.
  rewrite run_bind. simpl. by rewrite add_resolves.
Qed.

(** The example of the specification: three devices with distinct
    identity tokens. *)
Lemma dedup_requested_then_cached (d1 d2 d3 : pDevice) :
  deviceIDKey d1 ≠ 0%N → deviceIDKey d2 ≠ 0%N → deviceIDKey d3 ≠ 0%N →
  deviceIDKey d1 ≠ deviceIDKey d2 →
  deviceIDKey d1 ≠ deviceIDKey d3 →
  deviceIDKey d2 ≠ deviceIDKey d3 →
  dedup_by_token (with_token ([d1; d2] ++ [d2; d3])) = [d1; d2; d3].
Proof.
  intros H1 H2 H3 H12 H13 H23. unfold with_token. simpl.
  repeat (rewrite filter_cons_True by done). rewrite filter_nil. simpl.
  repeat first
    [ rewrite filter_cons_True by congruence
    | rewrite filter_cons_False by (intros ?; congruence)
    | rewrite filter_nil ].
  done.
Qed.

(** C4 (amended). On a failed build the devices resolved for log
    aggregation are the requested devices followed by the cached ones,
    without the devices that carry no identity token, deduplicated by
    token with the first occurrence kept and the order preserved.  When
    that list is empty the aggregator asks the driver instead: it then
    resolves to the discovered devices, deduplicated the same way, or
    fails with the error of the discovery.  Requested [d1, d2] with cached
    [d2, d3], of distinct tokens, resolve to [d1, d2, d3]. *)
Theorem collectDevicesForLogs_resolution env w l prog requested :
  programs w !! l = Some prog →
  let union :=
    dedup_by_token (with_token (elems w requested ++ elems w (devices prog)))
  in
  (union ≠ [] →
   collectDevicesForLogs env (Some l) requested w = (Normal (union, None), w)) ∧
  (union = [] →
   (∀ s w', associatedDevices env (Some l) w = (Normal (s, None), w') →
      collectDevicesForLogs env (Some l) requested w =
        (Normal (dedup_by_token (with_token (elems w' s)), None), w')) ∧
   (∀ s e w', associatedDevices env (Some l) w = (Normal (s, Some e), w') →
      collectDevicesForLogs env (Some l) requested w =
        (Normal ([], Some e), w'))) ∧
  (∀ d1 d2 d3,
     elems w requested = [d1; d2] →
     elems w (devices prog) = [d2; d3] →
     deviceIDKey d1 ≠ 0%N → deviceIDKey d2 ≠ 0%N → deviceIDKey d3 ≠ 0%N →
     deviceIDKey d1 ≠ deviceIDKey d2 →
     deviceIDKey d1 ≠ deviceIDKey d3 →
     deviceIDKey d2 ≠ deviceIDKey d3 →
     collectDevicesForLogs env (Some l) requested w =
       (Normal ([d1; d2; d3], None), w)).
Proof.
  intros H union. pose proof (collectDevicesForLogs_run env _ _ _ requested H)
    as Hrun. simpl in Hrun. fold union in Hrun.
  split; [|split].
  - intros Hne. rewrite Hrun. by destruct union.
  - intros Hnil. rewrite Hrun, Hnil.
    split; intros; by match goal with H : associatedDevices _ _ _ = _ |- _ =>
      rewrite H end.
  - intros d1 d2 d3 Hreq Hcached H1 H2 H3 H12 H13 H23.
    rewrite Hrun. subst union. rewrite Hreq, Hcached.
    by rewrite dedup_requested_then_cached.
Qed.

Lemma collectDevicesForLogs_resolution_witness :
  programs Fake.world1 !! 0 =
    Some {| clProgram := 100%N; devices := Slice 0 0 2 |} ∧
  collectDevicesForLogs
    (Fake.env Fake.CL_BUILD_PROGRAM_FAILURE Fake.no_logs (CL_SUCCESS, []))
    (Some 0) Fake.requested1 Fake.world1 =
    (Normal ([Fake.d 1; Fake.d 2; Fake.d 3], None), Fake.world1).
Proof.
  split; [reflexivity|].
  refine (proj2 (proj2 (collectDevicesForLogs_resolution _ Fake.world1 0 _
    Fake.requested1 eq_refl)) (Fake.d 1) (Fake.d 2) (Fake.d 3)
    eq_refl eq_refl _ _ _ _ _ _); discriminate.
Defined.

(** C4 as stated fails on two inputs.  With nothing requested and nothing
    cached the resolved set is the device the driver reports (7), not the
    empty union.  With the two token-less devices requested and devices 2
    and 3 cached the resolved set is [d 2, d 3]: the token-less devices are
    not part of it. *)
Lemma collectDevicesForLogs_counterexample :
  let env :=
    Fake.env Fake.CL_BUILD_PROGRAM_FAILURE Fake.no_logs (CL_SUCCESS, [7%N]) in
  ((collectDevicesForLogs env (Some 0) nil_slice Fake.world0).1 =
     Normal ([Fake.d 7], None) ∧
   (collectDevicesForLogs env (Some 0) nil_slice Fake.world0).1 ≠
     Normal
       (dedup_by_token
          (elems Fake.world0 nil_slice ++ elems Fake.world0 (devices Fake.prog0)),
        None)) ∧
  ((collectDevicesForLogs env (Some 0) Fake.tokenless Fake.world1).1 =
     Normal ([Fake.d 2; Fake.d 3], None) ∧
   (collectDevicesForLogs env (Some 0) Fake.tokenless Fake.world1).1 ≠
     Normal
       (dedup_by_token
          (elems Fake.world1 Fake.tokenless
             ++ elems Fake.world1 (devices Fake.prog1)),
        None)).
Proof. vm_compute. repeat split; discriminate. Qed.

(** ** Strings *)

Lemma append_assoc (a b c : string) : (a +:+ b) +:+ c = a +:+ b +:+ c.
Proof.
  induction a as [|x a IH]; [done|].
  change (String x ((a +:+ b) +:+ c) = String x (a +:+ b +:+ c)).
  by rewrite IH.
Qed.

Lemma contains_middle (a t b : string) : contains (a +:+ t +:+ b) t.
Proof. by exists a, b. Qed.

Lemma contains_append_l (a s t : string) : contains s t → contains (a +:+ s) t.
Proof.
  intros (x & y & ->). exists (a +:+ x), y. by rewrite append_assoc.
Qed.

(** ** [wrapBuildError] *)

Lemma wrapBuildError_unavailable env w p code requested e w' :
  collectDevicesForLogs env p requested w = (Normal ([], Some e), w') →
  wrapBuildError env p code requested w =
    (Normal (Some (log_unavailable env code e)), w').
Proof.
  intros H. unfold wrapBuildError.
  by rewrite (run_bind_normal _ _ _ _ _ H).
Qed.

(** C3. When the driver reports a build failure, neither the requested nor
    the cached devices resolve to any device, and auto-discovery fails
    with [e], [BuildProgram] returns the [fmt.Errorf] error
    "cl: build error (<status>; log unavailable: <e>)": it is not a
    [BuildError], its text contains the text of the translated build
    status and the text of [e], and after the build call the driver is
    only asked the device queries of the discovery: no build-log query
    and no device name. *)
Theorem BuildProgram_total_fallback env w l prog devs options ids s e w2 :
  programs w !! l = Some prog →
  device_list env devs w = (Normal ids, w) →
  let code := build_status env w prog devs ids options in
  let w1 := logged w (build_call prog devs ids options) in
  code ≠ CL_SUCCESS →
  dedup_by_token (with_token (elems w devs ++ elems w (devices prog))) = [] →
  associatedDevices env (Some l) w1 = (Normal (s, Some e), w2) →
  BuildProgram env (Some l) devs options w =
    (Normal (Some (log_unavailable env code e)), w2) ∧
  (∀ t, log_unavailable env code e ≠ BuildError t) ∧
  contains (Error env (log_unavailable env code e))
    (Error env (toError env code)) ∧
  contains (Error env (log_unavailable env code e)) (Error env e) ∧
  ∃ new,
    calls w2 = calls w ++ build_call prog devs ids options :: new ∧
    forallb is_device_query new = true ∧
    forallb (λ c, negb (is_log_query c)) new = true.
Proof.
  intros H Hids code w1 Hcode Hnone Hdisc.
  assert (Hres : collectDevicesForLogs env (Some l) devs w1 =
                   (Normal ([], Some e), w2)).
  { rewrite (collectDevicesForLogs_run env w1 l prog devs H). simpl.
    change (elems w1 devs) with (elems w devs).
    change (elems w1 (devices prog)) with (elems w (devices prog)).
    by rewrite Hnone, Hdisc. }
  split; [|split; [|split; [|split]]].
  - rewrite (BuildProgram_failed _ _ _ _ _ _ _ H Hids Hcode).
    fold code w1. rewrite run_bind.
    by rewrite (wrapBuildError_unavailable _ _ _ _ _ _ _ Hres).
  - done.
  - unfold log_unavailable. simpl. apply contains_middle.
  - unfold log_unavailable. simpl.
    do 3 apply contains_append_l. apply (contains_middle ""%string).
  - destruct (steps_associatedDevices env (Some l) w1)
      as (_ & _ & new & Hc & Hall).
    rewrite Hdisc in Hc. simpl in Hc. exists new.
    split; [by rewrite Hc, <- app_assoc|]. split; [done|].
    apply forallb_forall. intros c Hin.
    eapply forallb_forall in Hall; [|done]. by destruct c.
Qed.

Lemma BuildProgram_total_fallback_witness :
  let env :=
    Fake.env Fake.CL_BUILD_PROGRAM_FAILURE Fake.no_logs
      (Fake.CL_INVALID_DEVICE, []) in
  BuildProgram env (Some 0) nil_slice "-O2" Fake.world0 =
    (Normal (Some (errorString
       "cl: build error (cl: Build Program Failure; log unavailable: cl: Invalid Device)")),
     {| programs := programs Fake.world0; arrays := [];
        calls := [call_clBuildProgram 100%N 0 [] (Some "-O2");
                  call_clGetProgramInfo 100%N 0%N] |}).
Proof.
  intros env.
  refine (proj1 (BuildProgram_total_fallback env Fake.world0 0 _ nil_slice
    "-O2" [] nil_slice ErrInvalidDevice _ eq_refl eq_refl _ eq_refl eq_refl)).
  discriminate.
Defined.

(** ** [strings.Join] *)

Lemma Join_cons s ys sep :
  ∃ b, Join (s :: ys) sep = s +:+ b.
Proof.
  destruct ys as [|y ys].
  - exists ""%string. simpl. induction s as [|x s IH]; [done|].
    change (String x s = String x (s +:+ "")). by rewrite <- IH.
  - by exists (sep +:+ Join (y :: ys) sep).
Qed.

Lemma Join_app_cons xs sep :
  ∃ a, ∀ s ys, Join (xs ++ s :: ys) sep = a +:+ Join (s :: ys) sep.
Proof.
  induction xs as [|x xs [a IH]].
  - by exists ""%string.
  - exists (x +:+ sep +:+ a). intros s ys.
    change ((x :: xs) ++ s :: ys) with (x :: (xs ++ s :: ys)).
    destruct (xs ++ s :: ys) as [|z zs] eqn:E.
    { by destruct xs. }
    change (Join (x :: z :: zs) sep) with (x +:+ sep +:+ Join (z :: zs) sep).
    rewrite <- E, IH. by rewrite !append_assoc.
Qed.

(** Two elements of a joined list occur in the text in their order. *)
Lemma Join_two xs s1 ys s2 zs sep :
  ∃ a b c, Join (xs ++ s1 :: ys ++ s2 :: zs) sep = a +:+ s1 +:+ b +:+ s2 +:+ c.
Proof.
  destruct (Join_app_cons xs sep) as [a Ha].
  destruct (Join_app_cons ys sep) as [b Hb].
  destruct (Join_cons s2 zs sep) as [c Hc].
  exists a, (sep +:+ b), c. rewrite Ha.
  destruct (ys ++ s2 :: zs) as [|z rest] eqn:E.
  { by destruct ys. }
  change (Join (s1 :: z :: rest) sep) with (s1 +:+ sep +:+ Join (z :: rest) sep).
  rewrite <- E, Hb, Hc. by rewrite !append_assoc.
Qed.

(** ** Sections *)

Lemma sections_app env fs gs :
  sections env (fs ++ gs) = sections env fs ++ sections env gs.
Proof. apply flat_map_app. Qed.

Lemma sections_two env (fetched : list (string * (string * option error)))
    i j x y s1 s2 :
  fetched !! i = Some x → fetched !! j = Some y → i < j →
  contribution env x.1 x.2 = [s1] →
  contribution env y.1 y.2 = [s2] →
  ∃ pre mid post, sections env fetched = pre ++ s1 :: mid ++ s2 :: post.
Proof.
  intros Hi Hj Hlt H1 H2.
  pose proof (take_drop_middle _ _ _ Hi) as Esplit.
  assert (Hj' : drop (S i) fetched !! (j - S i) = Some y).
  { rewrite lookup_drop. by replace (S i + (j - S i)) with j by lia. }
  pose proof (take_drop_middle _ _ _ Hj') as Esplit'.
  rewrite <- Esplit' in Esplit. rewrite <- Esplit.
  exists (sections env (take i fetched)),
    (sections env (take (j - S i) (drop (S i) fetched))),
    (sections env (drop (S (j - S i)) (drop (S i) fetched))).
  rewrite sections_app.
  change (sections env (x :: ?l)) with (contribution env x.1 x.2 ++ sections env l).
  rewrite H1, sections_app.
  change (sections env (y :: ?l)) with (contribution env y.1 y.2 ++ sections env l).
  by rewrite H2.
Qed.

Lemma fetch_all_length env p devs : ∀ w fetched w',
  fetch_all env p devs w = (Normal fetched, w') →
  length fetched = length devs.
Proof.
  induction devs as [|d rest IH]; intros w fetched w'; simpl.
  - by intros [= <- _].
  - rewrite run_bind.
    destruct (safeDeviceLabel env d w) as [[label|] w1]; [|done].
    rewrite run_bind.
    destruct (GetBuildLog env p d w1) as [[fetch|] w2]; [|done].
    rewrite run_bind.
    destruct (fetch_all env p rest w2) as [[fs|] w3] eqn:E; [|done].
    intros [= <- _]. simpl. f_equal. by eapply IH.
Qed.

Lemma wrapBuildError_sections env w p code requested resolved w1 fetched w2 :
  collectDevicesForLogs env p requested w = (Normal (resolved, None), w1) →
  fetch_all env p resolved w1 = (Normal fetched, w2) →
  wrapBuildError env p code requested w =
    (Normal (Some
       match sections env fetched with
       | [] => toError env code
       | secs => BuildError (Join (status_line env code :: secs) nl)
       end), w2).
Proof.
  intros Hres Hfetch. unfold wrapBuildError.
  rewrite (run_bind_normal _ _ _ _ _ Hres).
  rewrite run_bind, collectBuildLogs_fetch_all.
  rewrite (run_bind_normal _ _ _ _ _ Hfetch). simpl.
  by destruct (sections env fetched).
Qed.

(** Entry [i] of what [fetch_all] returns is the label and the fetch
    result of device [i], as computed when its turn came. *)
Lemma fetch_all_lookup env p devs : ∀ w fetched w',
  fetch_all env p devs w = (Normal fetched, w') →
  ∀ i label fetch,
    fetched !! i = Some (label, fetch) →
    ∃ d wa wb wc,
      devs !! i = Some d ∧
      safeDeviceLabel env d wa = (Normal label, wb) ∧
      GetBuildLog env p d wb = (Normal fetch, wc).
Proof.
  induction devs as [|d rest IH]; intros w fetched w'; simpl.
  - intros [= <- _] i label fetch Hi. by rewrite lookup_nil in Hi.
  - rewrite run_bind.
    destruct (safeDeviceLabel env d w) as [[label0|] w1] eqn:E1; [|done].
    rewrite run_bind.
    destruct (GetBuildLog env p d w1) as [[fetch0|] w2] eqn:E2; [|done].
    rewrite run_bind.
    destruct (fetch_all env p rest w2) as [[fs|] w3] eqn:E3; [|done].
    intros [= <- _] [|i] label fetch Hi; simpl in Hi.
    + injection Hi as <- <-. by exists d, w, w1, w2.
    + by eapply IH.
Qed.

(** What [BuildProgram] returns on a failed build, from the devices
    resolved and what was fetched for them. *)
Lemma BuildProgram_sections env w l prog devs options ids
    resolved fetched w2 w3 :
  programs w !! l = Some prog →
  device_list env devs w = (Normal ids, w) →
  let code := build_status env w prog devs ids options in
  let w1 := logged w (build_call prog devs ids options) in
  code ≠ CL_SUCCESS →
  collectDevicesForLogs env (Some l) devs w1 = (Normal (resolved, None), w2) →
  fetch_all env (Some l) resolved w2 = (Normal fetched, w3) →
  BuildProgram env (Some l) devs options w =
    (Normal (Some
       match sections env fetched with
       | [] => toError env code
       | secs => BuildError (Join (status_line env code :: secs) nl)
       end), w3).
Proof.
  intros H Hids code w1 Hcode Hres Hfetch.
  rewrite (BuildProgram_failed _ _ _ _ _ _ _ H Hids Hcode).
  fold code w1. rewrite run_bind.
  rewrite (wrapBuildError_sections _ _ _ _ _ _ _ _ _ Hres Hfetch).
  by destruct (sections env fetched).
Qed.

(** C5. On a failed build for which the aggregator resolved the devices
    [resolved] and fetched label and log of each in turn: if the sections
    (in resolution order: nothing for a log that is blank after trimming,
    "<label>:\n<trimmed log>" for any other fetched log, the "unable to
    fetch" line for a failed fetch) are not empty, [BuildProgram] returns
    the [BuildError] whose string is "status=<text of the translated
    status>" followed by the sections, joined with newlines; if there is
    no section it returns the translated status error itself. *)
Theorem BuildProgram_composite env w l prog devs options ids
    resolved fetched w2 w3 :
  programs w !! l = Some prog →
  device_list env devs w = (Normal ids, w) →
  let code := build_status env w prog devs ids options in
  let w1 := logged w (build_call prog devs ids options) in
  code ≠ CL_SUCCESS →
  collectDevicesForLogs env (Some l) devs w1 = (Normal (resolved, None), w2) →
  fetch_all env (Some l) resolved w2 = (Normal fetched, w3) →
  let secs := sections env fetched in
  length fetched = length resolved ∧
  (∀ i label fetch,
     fetched !! i = Some (label, fetch) →
     ∃ d wa wb wc,
       resolved !! i = Some d ∧
       safeDeviceLabel env d wa = (Normal label, wb) ∧
       GetBuildLog env (Some l) d wb = (Normal fetch, wc)) ∧
  secs =
    flat_map (λ lf,
      match lf.2 with
      | (_, Some e) =>
          [lf.1 +:+ ": <unable to fetch build log: " +:+ Error env e +:+ ">"]
      | (log, None) =>
          if decide (TrimSpace log = ""%string) then []
          else [lf.1 +:+ ":" +:+ nl +:+ TrimSpace log]
      end) fetched ∧
  (secs ≠ [] →
   BuildProgram env (Some l) devs options w =
     (Normal (Some (BuildError
        (Join (("status=" +:+ Error env (toError env code)) :: secs) nl))),
      w3)) ∧
  (secs = [] →
   BuildProgram env (Some l) devs options w =
     (Normal (Some (toError env code)), w3)).
Proof.
  intros H Hids code w1 Hcode Hres Hfetch secs.
  pose proof (BuildProgram_sections env w l prog devs options ids
                resolved fetched w2 w3 H Hids Hcode Hres Hfetch) as Hrun.
  fold code secs in Hrun.
  split; [by eapply fetch_all_length|].
  split; [by eapply fetch_all_lookup|]. split; [|split].
  - subst secs. unfold sections. apply flat_map_ext. intros [label [log [e|]]].
    + done.
    + simpl. destruct (String.eqb_spec (TrimSpace log) "");
        by destruct (decide (TrimSpace log = ""%string)).
  - intros Hne. rewrite Hrun. by destruct secs.
  - intros Hnil. rewrite Hrun. by rewrite Hnil.
Qed.

Lemma BuildProgram_composite_witness :
  let env :=
    Fake.env Fake.CL_BUILD_PROGRAM_FAILURE Fake.scenario_logs
      (CL_SUCCESS, [1%N; 2%N]) in
  (BuildProgram env (Some 0) nil_slice "-O2" Fake.world0).1 =
    Normal (Some (BuildError
      ("status=cl: Build Program Failure" +:+ nl +:+
       "GPU0:" +:+ nl +:+ "error: syntax"))).
Proof.
  intros env.
  edestruct (BuildProgram_composite env Fake.world0 0 Fake.prog0 nil_slice
               "-O2" [])
    as (_ & _ & _ & Hsome & _);
    [reflexivity | reflexivity | discriminate
    | vm_compute; reflexivity | vm_compute; reflexivity |].
  rewrite Hsome; [reflexivity | discriminate].
Defined.

(** C8. On a failed build, when the fetch for one resolved device fails
    with [e] and the fetch for another yields a log that is not blank,
    aggregation goes through all devices and [BuildProgram] returns a
    [BuildError] whose text holds both the line
    "<label>: <unable to fetch build log: <e>>" of the first and the
    section "<label>:\n<trimmed log>" of the second, in the order in which
    the two devices were resolved. *)
Theorem BuildProgram_graceful_degradation env w l prog devs options ids
    resolved fetched w2 w3 i j label1 got e label2 log :
  programs w !! l = Some prog →
  device_list env devs w = (Normal ids, w) →
  let code := build_status env w prog devs ids options in
  let w1 := logged w (build_call prog devs ids options) in
  code ≠ CL_SUCCESS →
  collectDevicesForLogs env (Some l) devs w1 = (Normal (resolved, None), w2) →
  fetch_all env (Some l) resolved w2 = (Normal fetched, w3) →
  fetched !! i = Some (label1, (got, Some e)) →
  fetched !! j = Some (label2, (log, None)) →
  TrimSpace log ≠ ""%string →
  let failed := label1 +:+ ": <unable to fetch build log: " +:+ Error env e +:+ ">" in
  let fetched_log := label2 +:+ ":" +:+ nl +:+ TrimSpace log in
  ∃ text,
    BuildProgram env (Some l) devs options w =
      (Normal (Some (BuildError text)), w3) ∧
    text = Join (status_line env code :: sections env fetched) nl ∧
    ∃ a b c,
      (i < j → text = a +:+ failed +:+ b +:+ fetched_log +:+ c) ∧
      (j < i → text = a +:+ fetched_log +:+ b +:+ failed +:+ c).
Proof.
  intros H Hids code w1 Hcode Hres Hfetch Hi Hj Hlog failed fetched_log.
  assert (C1 : contribution env label1 (got, Some e) = [failed]) by done.
  assert (C2 : contribution env label2 (log, None) = [fetched_log]).
  { simpl. by destruct (String.eqb_spec (TrimSpace log) ""). }
  assert (Hne : sections env fetched ≠ []).
  { pose proof (take_drop_middle _ _ _ Hi) as E. rewrite <- E.
    rewrite sections_app.
    change (sections env (?x :: ?r))
      with (contribution env x.1 x.2 ++ sections env r).
    simpl fst; simpl snd. rewrite C1. by destruct (sections env (take i fetched)). }
  pose proof (BuildProgram_sections env w l prog devs options ids
                resolved fetched w2 w3 H Hids Hcode Hres Hfetch) as Hrun.
  fold code in Hrun.
  exists (Join (status_line env code :: sections env fetched) nl).
  split; [rewrite Hrun; by destruct (sections env fetched)|]. split; [done|].
  destruct (decide (i < j)) as [Hlt|Hge].
  - destruct (sections_two env fetched i j _ _ _ _ Hi Hj Hlt C1 C2)
      as (pre & mid & post & E).
    destruct (Join_two (status_line env code :: pre) failed mid
                fetched_log post nl) as (a & b & c & Ejoin).
    exists a, b, c. split; [|lia]. intros _.
    fold (status_line env code). rewrite E. exact Ejoin.
  - destruct (decide (j < i)) as [Hlt|Hge'].
    + destruct (sections_two env fetched j i _ _ _ _ Hj Hi Hlt C2 C1)
        as (pre & mid & post & E).
      destruct (Join_two (status_line env code :: pre) fetched_log mid
                  failed post nl) as (a & b & c & Ejoin).
      exists a, b, c. split; [lia|]. intros _.
      fold (status_line env code). rewrite E. exact Ejoin.
    + exists ""%string, ""%string, ""%string. split; intros; lia.
Qed.

Lemma BuildProgram_graceful_degradation_witness :
  let env :=
    Fake.env Fake.CL_BUILD_PROGRAM_FAILURE Fake.refusing_logs
      (CL_SUCCESS, [2%N; 1%N]) in
  ∃ text,
    (BuildProgram env (Some 0) nil_slice "" Fake.world0).1 =
      Normal (Some (BuildError text)) ∧
    text =
      "status=cl: Build Program Failure" +:+ nl +:+
      "GPU1: <unable to fetch build log: cl: Invalid Device>" +:+ nl +:+
      "GPU0:" +:+ nl +:+ "error: syntax".
Proof.
  intros env.
  edestruct (BuildProgram_graceful_degradation env Fake.world0 0 Fake.prog0
               nil_slice "" []) with (i := 0) (j := 1)
    as (text & Hrun & Htext & _);
    [reflexivity | reflexivity | discriminate
    | vm_compute; reflexivity | vm_compute; reflexivity
    | reflexivity | reflexivity | discriminate |].
  exists text. split; [by rewrite Hrun|]. rewrite Htext. reflexivity.
Defined.

(** ** [BuildProgram] when the driver reports success *)


Lemma elems_fresh w w' xs :
  arrays w' = arrays w ++ [xs] →
  elems w' (Slice (length (arrays w)) 0 (length xs)) = xs.
Proof.
  intros E. simpl. rewrite E, lookup_app_r by done.
  rewrite Nat.sub_diag. simpl. by rewrite firstn_all.
Qed.

Lemma BuildProgram_explicit env w l prog devs options ids :
  programs w !! l = Some prog →
  device_list env devs w = (Normal ids, w) →
  build_status env w prog devs ids options = CL_SUCCESS →
  0 < slice_len devs →
  BuildProgram env (Some l) devs options w =
    (Normal None,
     {| programs :=
          <[l := {| clProgram := clProgram prog;
                    devices := Slice (length (arrays w)) 0
                                 (length (elems w devs)) |}]> (programs w);
        arrays := arrays w ++ [elems w devs];
        calls := calls w ++ [build_call prog devs ids options] |}).
Proof.
  intros H Hids Hcode Hlen. unfold BuildProgram.
  rewrite (run_bind_normal _ _ _ _ _ Hids).
  rewrite (run_bind_normal _ _ _ _ _ (load_run _ _ _ H)).
  rewrite run_bind, native_clBuildProgram_run.
  fold (build_status env w prog devs ids options). rewrite Hcode.
  apply Nat.ltb_lt in Hlen. simpl. rewrite Hlen.
  rewrite !run_bind. simpl.
  rewrite run_bind. unfold alloc at 1. cbv beta iota.
  rewrite run_bind. erewrite set_devices_run by exact H. reflexivity.
Qed.

(** C6. When [BuildProgram] succeeds with a non-empty device slice, the
    cached device list is afterwards exactly the elements of that slice, in
    order and with duplicates kept.  It sits in a backing array of its own:
    whatever the caller then writes through a slice it held before the
    call, the cached list does not change.  The driver is asked nothing but
    the build itself, so no answer of the discovery query matters. *)
Theorem BuildProgram_caches_explicit_devices env w l prog devs options ids :
  programs w !! l = Some prog →
  device_list env devs w = (Normal ids, w) →
  build_status env w prog devs ids options = CL_SUCCESS →
  0 < slice_len devs →
  let w' := (BuildProgram env (Some l) devs options w).2 in
  (BuildProgram env (Some l) devs options w).1 = Normal None ∧
  cached w' l = elems w devs ∧
  (∀ s i x, allocated w s → cached (write w' s i x) l = elems w devs) ∧
  calls w' = calls w ++ [build_call prog devs ids options].
Proof.
  intros H Hids Hcode Hlen w'. subst w'.
  rewrite (BuildProgram_explicit _ _ _ _ _ _ _ H Hids Hcode Hlen). simpl.
  assert (Hlt : l < length (programs w)) by (by eapply lookup_lt_Some).
  split; [done|]. split; [|split; [|done]].
  - unfold cached. simpl. rewrite list_lookup_insert_eq by done.
    by apply (elems_fresh w).
  - intros s i x Hs. unfold cached.
    destruct s as [|a o n]; simpl.
    { rewrite list_lookup_insert_eq by done. by apply (elems_fresh w). }
    simpl in Hs. destruct (i <? n)%nat; simpl.
    + rewrite list_lookup_insert_eq by done. simpl.
      rewrite list_lookup_alter_ne by lia.
      rewrite lookup_app_r by done. rewrite Nat.sub_diag. simpl.
      by rewrite firstn_all.
    + rewrite list_lookup_insert_eq by done. by apply (elems_fresh w).
Qed.

Lemma BuildProgram_caches_explicit_devices_witness :
  let env := Fake.env CL_SUCCESS Fake.no_logs (CL_SUCCESS, [9%N]) in
  let w' := (BuildProgram env (Some 0) Fake.requested1 "" Fake.world1).2 in
  cached w' 0 = [Fake.d 1; Fake.d 2] ∧
  cached (write w' Fake.requested1 0 (Fake.d 9)) 0 = [Fake.d 1; Fake.d 2].
Proof.
  intros env w'.
  destruct (BuildProgram_caches_explicit_devices env Fake.world1 0 Fake.prog1
              Fake.requested1 "" [1%N; 2%N])
    as (_ & Hcached & Hcopy & _);
    [reflexivity | reflexivity | reflexivity | simpl; lia |].
  split; [exact Hcached|].
  apply (Hcopy Fake.requested1 0 (Fake.d 9)). simpl. lia.
Defined.

(** ** Auto-discovery *)

Lemma to_int_small (n : N) : (n < 2 ^ 63)%N → to_int n = Z.of_N n.
Proof.
  intros Hn. unfold to_int.
  assert (0 ≤ Z.of_N n < 2 ^ 63)%Z as Hz.
  { split; [lia|]. change (2 ^ 63)%Z with (Z.of_N (2 ^ 63)). lia. }
  rewrite Z.mod_small by lia.
  destruct (Z.ltb_spec (Z.of_N n) (2 ^ 63)); lia.
Qed.




Lemma device_list_none env devs w :
  slice_len devs = 0 → device_list env devs w = (Normal [], w).
Proof. intros E. unfold device_list. by rewrite E. Qed.

Lemma BuildProgram_discovering env w l prog devs options :
  programs w !! l = Some prog →
  slice_len devs = 0 →
  slice_len (devices prog) = 0 →
  build_status env w prog devs [] options = CL_SUCCESS →
  BuildProgram env (Some l) devs options w =
    match associatedDevices env (Some l)
            (logged w (build_call prog devs [] options)) with
    | (Normal (s, None), w2) =>
        if (0 <? slice_len s)%nat then
          (Normal None,
           {| programs :=
                <[l := {| clProgram := clProgram prog; devices := s |}]>
                  (programs w2);
              arrays := arrays w2; calls := calls w2 |})
        else (Normal None, w2)
    | (Normal (_, Some _), w2) => (Normal None, w2)
    | (Panic, w2) => (Panic, w2)
    end.
Proof.
  intros H Hdevs Hcached Hcode. unfold BuildProgram.
  rewrite (run_bind_normal _ _ _ _ _ (device_list_none _ _ _ Hdevs)).
  rewrite (run_bind_normal _ _ _ _ _ (load_run _ _ _ H)).
  rewrite run_bind, native_clBuildProgram_run.
  fold (build_status env w prog devs [] options). rewrite Hcode.
  change (negb (CL_SUCCESS =? CL_SUCCESS)%Z) with false. cbv iota.
  rewrite Hdevs. change (0 <? 0)%nat with false. cbv iota.
  fold (build_call prog devs [] options).
  set (w1 := logged w (build_call prog devs [] options)).
  assert (H1 : programs w1 !! l = Some prog) by done.
  rewrite (run_bind_normal _ _ _ _ _ (load_run _ _ _ H1)).
  rewrite Hcached. change (0 =? 0)%nat with true. cbv iota.
  rewrite run_bind.
  destruct (steps_associatedDevices env (Some l) w1) as (Hp & _).
  destruct (associatedDevices env (Some l) w1) as [[[s [e|]]|] w2];
    simpl in Hp; [done| |done].
  rewrite bool_decide_eq_true_2 by done. rewrite andb_true_l.
  destruct (0 <? slice_len s)%nat; [|done].
  rewrite run_bind.
  assert (H2 : programs w2 !! l = Some prog) by (by rewrite Hp).
  by rewrite (set_devices_run _ _ _ _ H2).
Qed.



(** ** Operations on a program without handle *)

Lemma CreateKernel_run env w l prog kname :
  programs w !! l = Some prog →
  CreateKernel env (Some l) kname w =
    (Normal
       (let '(k, err) :=
          clCreateKernel env (calls w) (clProgram prog) (CString kname) in
        if (err =? CL_SUCCESS)%Z
        then (Some {| clKernel := k; name := kname |}, None)
        else (None, Some (toError env err))),
     logged w (call_clCreateKernel (clProgram prog) (CString kname))).
Proof.
  intros H. unfold CreateKernel.
  rewrite (run_bind_normal _ _ _ _ _ (load_run _ _ _ H)).
  rewrite run_bind, native_clCreateKernel_run.
  destruct (clCreateKernel env (calls w) (clProgram prog) (CString kname))
    as [k err].
  by destruct (err =? CL_SUCCESS)%Z.
Qed.

Lemma fetch_all_released env l prog devs : ∀ w,
  programs w !! l = Some prog →
  clProgram prog = 0%N →
  ∃ fetched w',
    fetch_all env (Some l) devs w = (Normal fetched, w') ∧
    length fetched = length devs ∧
    Forall (λ lf, lf.2 = (""%string, Some ErrInvalidProgram)) fetched.
Proof.
  induction devs as [|d rest IH]; intros w H Hh; simpl.
  - by eexists [], w.
  - rewrite run_bind.
    destruct (safeDeviceLabel_returns env d w) as [label Hlabel].
    destruct (steps_safeDeviceLabel env d w) as (Hp & _).
    destruct (safeDeviceLabel env d w) as [[label'|] w1]; [|done].
    simpl in Hp, Hlabel. injection Hlabel as ->.
    assert (H1 : programs w1 !! l = Some prog) by (by rewrite Hp).
    rewrite run_bind, (GetBuildLog_released _ _ _ _ _ H1 Hh).
    destruct (IH w1 H1 Hh) as (fetched & w' & Hrun & Hlen & Hall).
    rewrite run_bind, Hrun. eexists _, w'. split; [done|].
    split; [by rewrite <- Hlen|]. by constructor.
Qed.

Lemma sections_released env fetched :
  Forall (λ lf, lf.2 = (""%string, Some ErrInvalidProgram)) fetched →
  sections env fetched =
    (λ lf, unable_section env lf.1 ErrInvalidProgram) <$> fetched.
Proof.
  induction 1 as [|[label fetch] rest Hx _ IH]; [done|].
  simpl in Hx. subst fetch.
  change (sections env ((label, (""%string, Some ErrInvalidProgram)) :: rest))
    with (unable_section env label ErrInvalidProgram :: sections env rest).
  by rewrite IH.
Qed.

(** [BuildProgram] on a program whose handle is nil, when the driver
    rejects the build: by whether a device resolves. *)
Lemma BuildProgram_without_handle env w l prog devs options ids :
  programs w !! l = Some prog →
  clProgram prog = 0%N →
  device_list env devs w = (Normal ids, w) →
  let code := build_status env w prog devs ids options in
  code ≠ CL_SUCCESS →
  let resolved :=
    dedup_by_token (with_token (elems w devs ++ elems w (devices prog))) in
  (resolved = [] →
   (BuildProgram env (Some l) devs options w).1 =
     Normal (Some (log_unavailable env code ErrInvalidProgram))) ∧
  (resolved ≠ [] →
   ∃ labels,
     length labels = length resolved ∧
     (∀ i label,
        labels !! i = Some label →
        ∃ d wa wb,
          resolved !! i = Some d ∧
          safeDeviceLabel env d wa = (Normal label, wb)) ∧
     (BuildProgram env (Some l) devs options w).1 =
       Normal (Some (BuildError
         (Join (status_line env code ::
                ((λ label, unable_section env label ErrInvalidProgram)
                   <$> labels)) nl)))).
Proof.
  intros H Hh Hids code Hcode resolved.
  rewrite (BuildProgram_failed _ _ _ _ _ _ _ H Hids Hcode). fold code.
  set (w1 := logged w (build_call prog devs ids options)).
  assert (H1 : programs w1 !! l = Some prog) by done.
  pose proof (collectDevicesForLogs_run env w1 l prog devs H1) as Hres.
  cbv zeta in Hres.
  change (elems w1 devs) with (elems w devs) in Hres.
  change (elems w1 (devices prog)) with (elems w (devices prog)) in Hres.
  fold resolved in Hres.
  split.
  - intros Hnone. rewrite Hnone in Hres.
    rewrite (associatedDevices_released _ _ _ _ H1 Hh) in Hres.
    by rewrite run_bind, (wrapBuildError_unavailable _ _ _ _ _ _ _ Hres).
  - intros Hsome.
    destruct resolved as [|d0 rest] eqn:E; [done|].
    destruct (fetch_all_released env l prog (d0 :: rest) w1 H1 Hh)
      as (fetched & w2 & Hfetch & Hlen & Hall).
    exists (fetched.*1). split; [by rewrite length_fmap|]. split.
    + intros i label Hi.
      apply list_lookup_fmap_Some in Hi as ([lab f] & -> & Hlf).
      destruct (fetch_all_lookup _ _ _ _ _ _ Hfetch i lab f Hlf)
        as (d & wa & wb & wc & Hd & Hlab & _).
      by exists d, wa, wb.
    + rewrite run_bind.
      rewrite (wrapBuildError_sections _ _ _ _ _ _ _ _ _ Hres Hfetch).
      rewrite (sections_released _ _ Hall), <- list_fmap_compose.
      destruct fetched as [|lf fs]; [done|]. done.
Qed.

(** C1 (amended). After [Release], [GetBuildLog] fails with
    [ErrInvalidProgram] for every device and asks the driver nothing.
    With a driver that rejects the nil handle with [CL_INVALID_PROGRAM],
    translated to [ErrInvalidProgram]: [CreateKernel] fails with
    [ErrInvalidProgram]; [BuildProgram] fails as well, but the error it
    returns is the aggregated one and not [ErrInvalidProgram] itself.  It
    is the [fmt.Errorf] error "cl: build error (<text of
    ErrInvalidProgram>; log unavailable: <text of ErrInvalidProgram>)"
    when no requested device resolves, and otherwise the [BuildError]
    made of the line "status=<text of ErrInvalidProgram>" and, for each
    resolved device in order, the line "<label>: <unable to fetch build
    log: <text of ErrInvalidProgram>>". *)
Theorem released_program_operations env w0 l prog0 :
  programs w0 !! l = Some prog0 →
  let w := (Release (Some l) w0).2 in
  let invalid := Error env ErrInvalidProgram in
  (∀ d, GetBuildLog env (Some l) d w =
          (Normal (""%string, Some ErrInvalidProgram), w)) ∧
  (rejects_nil_handle env →
   (∀ kname,
      (CreateKernel env (Some l) kname w).1 =
        Normal (None, Some ErrInvalidProgram)) ∧
   (∀ devs options ids,
      device_list env devs w = (Normal ids, w) →
      let resolved := dedup_by_token (with_token (elems w devs)) in
      (resolved = [] →
       (BuildProgram env (Some l) devs options w).1 =
         Normal (Some (errorString
           ("cl: build error (" +:+ invalid +:+ "; log unavailable: "
              +:+ invalid +:+ ")")))) ∧
      (resolved ≠ [] →
       ∃ labels,
         length labels = length resolved ∧
         (∀ i label,
            labels !! i = Some label →
            ∃ d wa wb,
              resolved !! i = Some d ∧
              safeDeviceLabel env d wa = (Normal label, wb)) ∧
         (BuildProgram env (Some l) devs options w).1 =
           Normal (Some (BuildError
             (Join (("status=" +:+ invalid) ::
                    ((λ label,
                        label +:+ ": <unable to fetch build log: "
                          +:+ invalid +:+ ">") <$> labels)) nl)))) ∧
      (BuildProgram env (Some l) devs options w).1
        ≠ Normal (Some ErrInvalidProgram))).
Proof.
  intros H0 w invalid.
  assert (Hlt : l < length (programs w0)) by (by eapply lookup_lt_Some).
  set (released := {| clProgram := 0%N; devices := nil_slice |}).
  assert (H : programs w !! l = Some released).
  { subst w. rewrite (Release_run _ _ _ H0). simpl.
    by apply list_lookup_insert_eq. }
  split.
  { intros d. by apply (GetBuildLog_released _ _ _ _ _ H). }
  intros (Hkernel & Hbuild & Htranslate). split.
  - intros kname. rewrite (CreateKernel_run _ _ _ _ _ H). simpl.
    pose proof (Hkernel (calls w) (CString kname)) as Hstatus.
    destruct (clCreateKernel env (calls w) 0%N (CString kname)) as [k err].
    simpl in Hstatus. subst err. simpl. by rewrite Htranslate.
  - intros devs options ids Hids resolved.
    assert (Hcode : build_status env w released devs ids options
                    = CL_INVALID_PROGRAM) by apply Hbuild.
    assert (Hne : build_status env w released devs ids options ≠ CL_SUCCESS)
      by (by rewrite Hcode).
    destruct (BuildProgram_without_handle env w l released devs options ids
                H eq_refl Hids Hne) as [Hnone Hsome].
    rewrite Hcode in Hnone, Hsome. simpl elems in Hnone, Hsome.
    rewrite app_nil_r in Hnone, Hsome. fold resolved in Hnone, Hsome.
    unfold log_unavailable, status_line, unable_section in Hnone, Hsome.
    rewrite Htranslate in Hnone, Hsome. fold invalid in Hnone, Hsome.
    split; [exact Hnone|]. split; [exact Hsome|].
    destruct (decide (resolved = [])) as [Hr|Hr].
    + by rewrite (Hnone Hr).
    + destruct (Hsome Hr) as (labels & _ & _ & ->). done.
Qed.

Lemma released_program_operations_witness :
  let env := Fake.env CL_SUCCESS Fake.no_logs (CL_SUCCESS, []) in
  let w := (Release (Some 0) Fake.world0).2 in
  GetBuildLog env (Some 0) (Fake.d 1) w =
    (Normal (""%string, Some ErrInvalidProgram), w) ∧
  (CreateKernel env (Some 0) "main" w).1 =
    Normal (None, Some ErrInvalidProgram) ∧
  (BuildProgram env (Some 0) nil_slice "" w).1
    ≠ Normal (Some ErrInvalidProgram).
Proof.
  intros env w.
  destruct (released_program_operations env Fake.world0 0 Fake.prog0 eq_refl)
    as [Hlog Hrest].
  destruct Hrest as [Hkernel Hbuild].
  { repeat split; intros; reflexivity. }
  split; [exact (Hlog (Fake.d 1))|]. split; [exact (Hkernel "main")|].
  exact (proj2 (proj2 (Hbuild nil_slice "" [] eq_refl))).
Defined.

(** C1 as stated fails for [BuildProgram]: after [Release], with a driver
    that rejects the nil handle with [CL_INVALID_PROGRAM], the error is the
    wrapped "log unavailable" error, and with a device requested it is a
    [BuildError]; neither is [ErrInvalidProgram]. *)
Lemma released_BuildProgram_counterexample :
  let env := Fake.env CL_SUCCESS Fake.no_logs (CL_SUCCESS, []) in
  let w := (Release (Some 0) Fake.world1).2 in
  toError env (clBuildProgram env (calls w) 0%N 0 [] None) = ErrInvalidProgram ∧
  (BuildProgram env (Some 0) nil_slice "" w).1 =
    Normal (Some (errorString
      "cl: build error (cl: Invalid Program; log unavailable: cl: Invalid Program)")) ∧
  (BuildProgram env (Some 0) nil_slice "" w).1
    ≠ Normal (Some ErrInvalidProgram) ∧
  (BuildProgram env (Some 0) Fake.requested1 "" w).1 =
    Normal (Some (BuildError
      ("status=cl: Invalid Program" +:+ nl +:+
       "GPU0: <unable to fetch build log: cl: Invalid Program>" +:+ nl +:+
       "GPU1: <unable to fetch build log: cl: Invalid Program>"))) ∧
  (BuildProgram env (Some 0) Fake.requested1 "" w).1
    ≠ Normal (Some ErrInvalidProgram).
Proof. vm_compute. repeat split; discriminate. Qed.

(** * Further properties of the code *)

(** ** [GetBuildLog] *)

Lemma cut_at_nul_no_nul buf : has_nul (cut_at_nul buf) = false.
Proof.
  induction buf as [|a rest IH]; simpl; [done|].
  destruct (N_of_ascii a =? 0)%N eqn:E; simpl; [done|]. by rewrite E.
Qed.

(** Every way through [GetBuildLog]: what it leaves behind and what it
    returns. *)
Lemma GetBuildLog_outcome env p d w :
  ∃ new,
    (GetBuildLog env p d w).2 =
      {| programs := programs w; arrays := arrays w;
         calls := calls w ++ new |} ∧
    length new ≤ 2 ∧
    forallb is_log_query new = true ∧
    match (GetBuildLog env p d w).1 with
    | Panic => True
    | Normal (log, Some e) =>
        log = ""%string ∧
        (e = ErrInvalidProgram ∧ new = [] ∨
         e = ErrInvalidDevice ∧ new = [] ∨
         ∃ code, code ≠ CL_SUCCESS ∧ e = toError env code ∧ new ≠ [])
    | Normal (log, None) => has_nul log = false ∧ new ≠ []
    end.
Proof.
  assert (Hsame : ∀ v : World,
    v = {| programs := programs v; arrays := arrays v;
           calls := calls v ++ [] |}).
  { intros [ps ars cs]. simpl. by rewrite app_nil_r. }
  unfold GetBuildLog. destruct p as [l|].
  2: { exists []. split; [apply Hsame|]. simpl. repeat split; eauto. }
  rewrite run_bind. unfold load. destruct (programs w !! l) as [prog|].
  2: { exists []. split; [apply Hsame|]. simpl. repeat split; lia. }
  destruct (clProgram prog =? 0)%N.
  { exists []. split; [apply Hsame|]. simpl. repeat split; eauto. }
  destruct d as [dev|].
  2: { exists []. split; [apply Hsame|]. simpl. repeat split; eauto. }
  rewrite run_bind, native_clGetProgramBuildInfo_size_run.
  destruct (clGetProgramBuildInfo_size env (calls w) (clProgram prog) (id dev))
    as [err size].
  destruct (Z.eqb_spec err CL_SUCCESS) as [->|Herr]; cbn [negb].
  2: { eexists [_]. split; [done|]. simpl. repeat split; try lia.
       right; right. by exists err. }
  destruct (size =? 0)%N.
  { eexists [_]. split; [done|]. simpl. repeat split; try lia; done. }
  destruct (to_int size <? 0)%Z.
  { eexists [_]. split; [done|]. simpl. repeat split; lia. }
  destruct (Z.to_nat (to_int size) =? 0)%nat.
  { eexists [_]. split; [done|]. simpl. repeat split; try lia; done. }
  rewrite run_bind, native_clGetProgramBuildInfo_log_run.
  destruct (clGetProgramBuildInfo_log env
              (calls (logged w (call_clGetProgramBuildInfo (clProgram prog)
                                  (id dev) 0%N)))
              (clProgram prog) (id dev) size) as [err2 written].
  destruct (Z.eqb_spec err2 CL_SUCCESS) as [->|Herr2]; cbn [negb].
  - eexists [_; _].
    split; [unfold logged; simpl; by rewrite <- app_assoc|].
    simpl. repeat split; try lia; try done. apply cut_at_nul_no_nul.
  - eexists [_; _].
    split; [unfold logged; simpl; by rewrite <- app_assoc|].
    simpl. repeat split; try lia. right; right. by exists err2.
Qed.

(** X1. [GetBuildLog] only reads: it leaves every [Program] object and
    every backing array as they are, and asks the driver at most two
    things, both build-log queries. *)
Theorem GetBuildLog_read_only env p d w :
  let w' := (GetBuildLog env p d w).2 in
  programs w' = programs w ∧
  arrays w' = arrays w ∧
  ∃ new,
    calls w' = calls w ++ new ∧
    length new ≤ 2 ∧
    forallb is_log_query new = true.
Proof.
  intros w'. subst w'.
  destruct (GetBuildLog_outcome env p d w) as (new & -> & Hlen & Hall & _).
  simpl. split; [done|]. split; [done|]. by exists new.
Qed.

(** X2. Whenever [GetBuildLog] returns an error, the log it returns with
    it is empty, and the error is [ErrInvalidProgram] or
    [ErrInvalidDevice], both found before the driver is asked anything, or
    the translation of a status other than [CL_SUCCESS] that the driver
    answered. *)
Theorem GetBuildLog_errors env p d w log e :
  (GetBuildLog env p d w).1 = Normal (log, Some e) →
  log = ""%string ∧
  (e = ErrInvalidProgram ∧ (GetBuildLog env p d w).2 = w ∨
   e = ErrInvalidDevice ∧ (GetBuildLog env p d w).2 = w ∨
   ∃ code, code ≠ CL_SUCCESS ∧ e = toError env code).
Proof.
  intros Hrun.
  destruct (GetBuildLog_outcome env p d w) as (new & Hw & _ & _ & Hform).
  rewrite Hrun in Hform. destruct Hform as [-> Hform]. split; [done|].
  rewrite Hw.
  destruct Hform as [[-> ->]|[[-> ->]|(code & Hcode & -> & _)]].
  - left. split; [done|]. destruct w. simpl. by rewrite app_nil_r.
  - right; left. split; [done|]. destruct w. simpl. by rewrite app_nil_r.
  - right; right. by exists code.
Qed.

Lemma GetBuildLog_errors_witness :
  let env :=
    Fake.env Fake.CL_BUILD_PROGRAM_FAILURE Fake.scenario_logs (CL_SUCCESS, [])
  in
  (GetBuildLog env (Some 0) (Fake.d 4) Fake.world0).1 =
    Normal (""%string, Some ErrInvalidDevice) ∧
  ""%string = ""%string.
Proof.
  intros env. split; [reflexivity|].
  exact (proj1 (GetBuildLog_errors env (Some 0) (Fake.d 4) Fake.world0
                  ""%string ErrInvalidDevice eq_refl)).
Defined.

(** X3. A log that [GetBuildLog] returns without error holds no NUL
    byte. *)
Theorem GetBuildLog_log_has_no_nul env p d w log :
  (GetBuildLog env p d w).1 = Normal (log, None) →
  has_nul log = false.
Proof.
  intros Hrun.
  destruct (GetBuildLog_outcome env p d w) as (new & _ & _ & _ & Hform).
  rewrite Hrun in Hform. by destruct Hform.
Qed.

Lemma GetBuildLog_log_has_no_nul_witness :
  let env :=
    Fake.env Fake.CL_BUILD_PROGRAM_FAILURE Fake.scenario_logs (CL_SUCCESS, [])
  in
  has_nul ("error: syntax" +:+ nl) = false.
Proof.
  intros env.
  exact (GetBuildLog_log_has_no_nul env (Some 0) (Fake.d 1) Fake.world0
           ("error: syntax" +:+ nl) eq_refl).
Defined.

Lemma cut_fill_terminated log junk : ∀ n,
  has_nul log = false →
  String.length log < n →
  cut_at_nul (fill n (log +:+ String zero junk)) = log.
Proof.
  induction log as [|a rest IH]; intros n Hnul Hlen.
  - destruct n as [|n]; [simpl in Hlen; lia|]. done.
  - destruct n as [|n]; [simpl in Hlen; lia|].
    simpl in Hnul. apply orb_false_elim in Hnul as [Ha Hrest].
    change (cut_at_nul (String a (fill n (rest +:+ String zero junk)))
            = String a rest).
    simpl. rewrite Ha, IH; [done|done|]. simpl in Hlen. lia.
Qed.

(** X4. When the driver reports the size of a buffer, of a size that
    [make] allocates, and then writes a log without NUL bytes and its
    terminating NUL into it (followed by anything), [GetBuildLog] returns
    exactly that log, without the terminator. *)
Theorem GetBuildLog_returns_driver_log env w l prog dev size log junk :
  programs w !! l = Some prog →
  clProgram prog ≠ 0%N →
  clGetProgramBuildInfo_size env (calls w) (clProgram prog) (id dev)
    = (CL_SUCCESS, size) →
  clGetProgramBuildInfo_log env
    (calls w ++ [call_clGetProgramBuildInfo (clProgram prog) (id dev) 0%N])
    (clProgram prog) (id dev) size
    = (CL_SUCCESS, log +:+ String zero junk) →
  has_nul log = false →
  (N.of_nat (String.length log) < size)%N →
  allocatable size →
  GetBuildLog env (Some l) (Some dev) w =
    (Normal (log, None),
     logged
       (logged w (call_clGetProgramBuildInfo (clProgram prog) (id dev) 0%N))
       (call_clGetProgramBuildInfo (clProgram prog) (id dev) size)).
Proof.
  intros H Hh Hprobe Hfetch Hnul Hlen Halloc. unfold GetBuildLog.
  assert (Hbound : (size < 2 ^ 63)%N).
  { unfold allocatable in Halloc.
    change (2 ^ 32)%N with 4294967296%N in Halloc.
    change (2 ^ 63)%N with 9223372036854775808%N. lia. }
  rewrite (run_bind_normal _ _ _ _ _ (load_run _ _ _ H)).
  destruct (N.eqb_spec (clProgram prog) 0); [done|].
  rewrite run_bind, native_clGetProgramBuildInfo_size_run, Hprobe.
  change (negb (CL_SUCCESS =? CL_SUCCESS)%Z) with false. cbv iota.
  destruct (N.eqb_spec size 0); [lia|].
  rewrite (to_int_small _ Hbound).
  destruct (Z.ltb_spec (Z.of_N size) 0); [lia|].
  destruct (Nat.eqb_spec (Z.to_nat (Z.of_N size)) 0); [lia|].
  rewrite run_bind, native_clGetProgramBuildInfo_log_run.
  change (calls (logged w ?c)) with (calls w ++ [c]). rewrite Hfetch.
  change (negb (CL_SUCCESS =? CL_SUCCESS)%Z) with false. cbv iota.
  rewrite cut_fill_terminated; [done|done|lia].
Qed.

Lemma GetBuildLog_returns_driver_log_witness :
  let env :=
    Fake.env Fake.CL_BUILD_PROGRAM_FAILURE Fake.scenario_logs (CL_SUCCESS, [])
  in
  (GetBuildLog env (Some 0) (Fake.d 5) Fake.world0).1 = Normal ("warn", None).
Proof.
  intros env. unfold Fake.d.
  rewrite (GetBuildLog_returns_driver_log env Fake.world0 0 Fake.prog0
             {| id := 5%N |} 5%N "warn" ""); try reflexivity.
  - discriminate.
  - unfold allocatable. vm_compute. discriminate.
Defined.

(** ** [associatedDevices] *)

Lemma wrap_ids_tokens ids :
  Forall (λ d, deviceIDKey d ≠ 0%N) (wrap_ids ids).
Proof.
  induction ids as [|i ids IH]; simpl; [done|].
  destruct (N.eqb_spec i 0); [done|]. by constructor.
Qed.

(** Every way through [associatedDevices]. *)
Lemma associatedDevices_outcome env p w :
  let w' := (associatedDevices env p w).2 in
  programs w' = programs w ∧
  match (associatedDevices env p w).1 with
  | Panic => True
  | Normal (s, Some e) => s = nil_slice ∧ arrays w' = arrays w
  | Normal (s, None) =>
      Forall (λ d, deviceIDKey d ≠ 0%N) (elems w' s) ∧ allocated w' s
  end.
Proof.
  unfold associatedDevices. destruct p as [l|]; [|done].
  rewrite run_bind. unfold load. destruct (programs w !! l) as [prog|]; [|done].
  destruct (clProgram prog =? 0)%N; [done|].
  rewrite run_bind, native_clGetProgramInfo_size_run.
  destruct (clGetProgramInfo_size env (calls w) (clProgram prog)) as [err size].
  destruct (err =? CL_SUCCESS)%Z; cbn [negb]; [|done].
  destruct (size =? 0)%N; [done|].
  destruct (sizeof_cl_device_id env =? 0)%N; [done|].
  destruct (to_int (size `div` sizeof_cl_device_id env)%N <=? 0)%Z; [done|].
  rewrite run_bind, native_clGetProgramInfo_devices_run.
  match goal with
  | |- context [clGetProgramInfo_devices ?e ?c ?h ?z] =>
      destruct (clGetProgramInfo_devices e c h z) as [err2 written]
  end.
  destruct (err2 =? CL_SUCCESS)%Z; cbn [negb]; [|done].
  rewrite run_bind. unfold alloc at 1. cbv beta iota.
  split; [done|]. split.
  - erewrite (elems_fresh (logged (logged w _) _)); [|done].
    apply wrap_ids_tokens.
  - cbn. rewrite length_app. simpl. lia.
Qed.

(** X5. Every device that [associatedDevices] returns carries a non-nil
    id: the nil entries the driver may have written are left out.  The
    slice returned sits in an array of its own. *)
Theorem associatedDevices_devices_have_tokens env p w s w' :
  associatedDevices env p w = (Normal (s, None), w') →
  Forall (λ d, deviceIDKey d ≠ 0%N) (elems w' s) ∧
  allocated w' s ∧
  programs w' = programs w.
Proof.
  intros Hrun. pose proof (associatedDevices_outcome env p w) as Hout.
  rewrite Hrun in Hout. simpl in Hout. by destruct Hout as (Hp & Hf & Ha).
Qed.

Lemma associatedDevices_devices_have_tokens_witness :
  let env := Fake.env CL_SUCCESS Fake.no_logs (CL_SUCCESS, [7%N; 0%N; 8%N]) in
  Forall (λ d, deviceIDKey d ≠ 0%N) [Fake.d 7; Fake.d 8].
Proof.
  intros env.
  refine (proj1 (associatedDevices_devices_have_tokens env (Some 0)
    Fake.world0 (Slice 0 0 2)
    {| programs := [Fake.prog0]; arrays := [[Fake.d 7; Fake.d 8]];
       calls := [call_clGetProgramInfo 100%N 0%N;
                 call_clGetProgramInfo 100%N 24%N] |} _)).
  reflexivity.
Defined.

(** X6. Whenever [associatedDevices] returns an error, the slice it
    returns with it is nil, nothing was allocated and no [Program] was
    changed. *)
Theorem associatedDevices_error_returns_nil env p w s e w' :
  associatedDevices env p w = (Normal (s, Some e), w') →
  s = nil_slice ∧ arrays w' = arrays w ∧ programs w' = programs w.
Proof.
  intros Hrun. pose proof (associatedDevices_outcome env p w) as Hout.
  rewrite Hrun in Hout. simpl in Hout. by destruct Hout as (Hp & Hs & Ha).
Qed.

Lemma associatedDevices_error_returns_nil_witness :
  let env := Fake.env CL_SUCCESS Fake.no_logs (Fake.CL_INVALID_DEVICE, []) in
  nil_slice = nil_slice ∧
  arrays (logged Fake.world0 (call_clGetProgramInfo 100%N 0%N))
    = arrays Fake.world0.
Proof.
  intros env.
  destruct (associatedDevices_error_returns_nil env (Some 0) Fake.world0
              nil_slice ErrInvalidDevice
              (logged Fake.world0 (call_clGetProgramInfo 100%N 0%N))
              eq_refl) as (Hs & Ha & _).
  by split.
Defined.

(** X7. When the driver reports fewer bytes than one device handle takes
    (none at all, for a program that was never built), [associatedDevices]
    returns no device and no error, and does not ask for the array. *)
Theorem associatedDevices_no_device env w l prog size :
  programs w !! l = Some prog →
  clProgram prog ≠ 0%N →
  sizeof_cl_device_id env ≠ 0%N →
  clGetProgramInfo_size env (calls w) (clProgram prog) = (CL_SUCCESS, size) →
  (size < sizeof_cl_device_id env)%N →
  associatedDevices env (Some l) w =
    (Normal (nil_slice, None),
     logged w (call_clGetProgramInfo (clProgram prog) 0%N)).
Proof.
  intros H Hh Hsz Hprobe Hsmall. unfold associatedDevices.
  rewrite (run_bind_normal _ _ _ _ _ (load_run _ _ _ H)).
  destruct (N.eqb_spec (clProgram prog) 0); [done|].
  rewrite run_bind, native_clGetProgramInfo_size_run, Hprobe.
  change (negb (CL_SUCCESS =? CL_SUCCESS)%Z) with false. cbv iota.
  destruct (size =? 0)%N; [done|].
  destruct (N.eqb_spec (sizeof_cl_device_id env) 0); [done|].
  by rewrite N.div_small.
Qed.

Lemma associatedDevices_no_device_witness :
  let env := Fake.env CL_SUCCESS Fake.no_logs (CL_SUCCESS, []) in
  (associatedDevices env (Some 0) Fake.world0).1 = Normal (nil_slice, None).
Proof.
  intros env.
  rewrite (associatedDevices_no_device env Fake.world0 0 Fake.prog0 0%N);
    try reflexivity; discriminate.
Defined.

(** ** Deduplication by token *)

Lemma dedup_sublist l : dedup_by_token l `sublist_of` l.
Proof.
  induction l as [|d rest IH]; simpl; [done|].
  apply sublist_skip. etrans; [apply sublist_filter|done].
Qed.

Lemma dedup_keys_NoDup l : NoDup (deviceIDKey <$> dedup_by_token l).
Proof.
  induction l as [|d rest IH]; simpl; [constructor|].
  apply NoDup_cons. split.
  - intros Hin. apply list_elem_of_fmap in Hin as (d' & Hkey & Hd').
    apply list_elem_of_filter in Hd' as [Hne _]. by apply Hne.
  - eapply sublist_NoDup; [exact IH|].
    apply fmap_sublist, sublist_filter.
Qed.

Lemma dedup_keeps_every_token l d :
  d ∈ l → deviceIDKey d ∈ deviceIDKey <$> dedup_by_token l.
Proof.
  induction l as [|d0 rest IH]; intros Hin; [by apply not_elem_of_nil in Hin|].
  apply elem_of_cons in Hin. simpl. apply elem_of_cons.
  destruct (decide (deviceIDKey d = deviceIDKey d0)) as [Heq|Hne]; [by left|].
  right. destruct Hin as [->|Hin]; [done|].
  apply IH, list_elem_of_fmap in Hin as (d' & Hkey & Hd').
  apply list_elem_of_fmap. exists d'. split; [done|].
  apply list_elem_of_filter. split; [|done]. by rewrite <- Hkey.
Qed.

Lemma with_token_tokens l : Forall (λ d, deviceIDKey d ≠ 0%N) (with_token l).
Proof.
  apply Forall_forall. intros d Hd.
  by apply list_elem_of_filter in Hd as [Hne _].
Qed.

Lemma Forall_sublist {A} (P : A → Prop) (l k : list A) :
  l `sublist_of` k → Forall P k → Forall P l.
Proof.
  intros Hsub Hk. apply Forall_forall. intros x Hx.
  eapply Forall_forall in Hk; [done|]. by eapply elem_of_sublist.
Qed.

(** What [collectDevicesForLogs] resolves to, whenever it succeeds. *)
Lemma collectDevicesForLogs_resolved env w l prog requested resolved w' :
  programs w !! l = Some prog →
  collectDevicesForLogs env (Some l) requested w =
    (Normal (resolved, None), w') →
  let given := elems w requested ++ elems w (devices prog) in
  (with_token given ≠ [] ∧ resolved = dedup_by_token (with_token given) ∧
   w' = w) ∨
  (with_token given = [] ∧
   ∃ s, associatedDevices env (Some l) w = (Normal (s, None), w') ∧
        resolved = dedup_by_token (with_token (elems w' s))).
Proof.
  intros H Hrun given.
  rewrite (collectDevicesForLogs_run env w l prog requested H) in Hrun.
  simpl in Hrun. fold given in Hrun.
  destruct (with_token given) as [|d0 rest] eqn:E.
  - right. split; [done|]. simpl in Hrun.
    destruct (associatedDevices env (Some l) w) as [[[s [e|]]|] w2];
      try done.
    injection Hrun as <- <-. by exists s.
  - left. split; [done|]. simpl in Hrun. by injection Hrun as <- <-.
Qed.

(** X8. The devices [collectDevicesForLogs] resolves all carry a token,
    and no two of them carry the same one: the log of a device is fetched
    at most once. *)
Theorem collectDevicesForLogs_distinct_tokens env w l prog requested
    resolved w' :
  programs w !! l = Some prog →
  collectDevicesForLogs env (Some l) requested w =
    (Normal (resolved, None), w') →
  NoDup (deviceIDKey <$> resolved) ∧
  Forall (λ d, deviceIDKey d ≠ 0%N) resolved.
Proof.
  intros H Hrun.
  destruct (collectDevicesForLogs_resolved _ _ _ _ _ _ _ H Hrun)
    as [(_ & -> & _)|(_ & s & _ & ->)];
    (split; [apply dedup_keys_NoDup|]);
    (eapply Forall_sublist; [apply dedup_sublist|apply with_token_tokens]).
Qed.

Lemma collectDevicesForLogs_distinct_tokens_witness :
  NoDup (deviceIDKey <$> [Fake.d 1; Fake.d 2; Fake.d 3]).
Proof.
  exact (proj1 (collectDevicesForLogs_distinct_tokens
    (Fake.env Fake.CL_BUILD_PROGRAM_FAILURE Fake.no_logs (CL_SUCCESS, []))
    Fake.world1 0 Fake.prog1 Fake.requested1
    [Fake.d 1; Fake.d 2; Fake.d 3] Fake.world1 eq_refl eq_refl)).
Defined.

(** X9. No requested or cached device is lost: the token of every such
    device that has one is the token of a resolved device.  When there is
    such a device, the resolved devices are taken from the requested and
    cached ones in their order, and the driver is not asked. *)
Theorem collectDevicesForLogs_loses_no_device env w l prog requested
    resolved w' :
  programs w !! l = Some prog →
  collectDevicesForLogs env (Some l) requested w =
    (Normal (resolved, None), w') →
  let given := elems w requested ++ elems w (devices prog) in
  (∀ d, d ∈ given → deviceIDKey d ≠ 0%N →
        deviceIDKey d ∈ deviceIDKey <$> resolved) ∧
  ((∃ d, d ∈ given ∧ deviceIDKey d ≠ 0%N) →
   resolved `sublist_of` given ∧ w' = w).
Proof.
  intros H Hrun given.
  destruct (collectDevicesForLogs_resolved _ _ _ _ _ _ _ H Hrun)
    as [(_ & -> & ->)|(Hnone & s & _ & ->)]; fold given.
  - split.
    + intros d Hd Hkey. apply dedup_keeps_every_token.
      by apply list_elem_of_filter.
    + intros _. split; [|done].
      etrans; [apply dedup_sublist|apply sublist_filter].
  - fold given in Hnone.
    assert (Hno : ∀ d, d ∈ given → deviceIDKey d ≠ 0%N → False).
    { intros d Hd Hkey.
      assert (d ∈ with_token given) as Hin by (by apply list_elem_of_filter).
      rewrite Hnone in Hin. by apply not_elem_of_nil in Hin. }
    split.
    + intros d Hd Hkey. by destruct (Hno d).
    + intros (d & Hd & Hkey). by destruct (Hno d).
Qed.

Lemma collectDevicesForLogs_loses_no_device_witness :
  deviceIDKey (Fake.d 3) ∈ deviceIDKey <$> [Fake.d 1; Fake.d 2; Fake.d 3].
Proof.
  refine (proj1 (collectDevicesForLogs_loses_no_device
    (Fake.env Fake.CL_BUILD_PROGRAM_FAILURE Fake.no_logs (CL_SUCCESS, []))
    Fake.world1 0 Fake.prog1 Fake.requested1
    [Fake.d 1; Fake.d 2; Fake.d 3] Fake.world1 eq_refl eq_refl)
    (Fake.d 3) _ _).
  - simpl. repeat constructor.
  - discriminate.
Defined.

(** ** [wrapBuildError] and the result of [BuildProgram] *)

Lemma append_nil_r (s : string) : s +:+ "" = s.
Proof.
  induction s as [|a s IH]; [done|].
  change (String a (s +:+ "") = String a s). by rewrite IH.
Qed.

Lemma contains_self (s : string) : contains s s.
Proof. exists ""%string, ""%string. by rewrite append_nil_r. Qed.

Lemma contains_append_r (s b t : string) : contains s t → contains (s +:+ b) t.
Proof.
  intros (x & y & ->). exists x, (y +:+ b). by rewrite !append_assoc.
Qed.

(** The three errors [wrapBuildError] can return. *)
Lemma wrapBuildError_forms env p code requested w r w' :
  wrapBuildError env p code requested w = (Normal r, w') →
  ∃ e,
    r = Some e ∧
    (e = toError env code ∨
     (∃ e', e = log_unavailable env code e') ∨
     ∃ logs,
       logs ≠ [] ∧ e = BuildError (Join (status_line env code :: logs) nl)).
Proof.
  unfold wrapBuildError. rewrite run_bind.
  destruct (collectDevicesForLogs env p requested w)
    as [[[devs [e|]]|] w1]; [| |done].
  - intros [= <- _]. eexists. split; [done|]. right; left. by eexists.
  - rewrite run_bind.
    destruct (collectBuildLogs env p devs w1) as [[logs|] w2]; [|done].
    destruct logs as [|s0 logs]; simpl.
    + intros [= <- _]. eexists. split; [done|]. by left.
    + intros [= <- _]. eexists. split; [done|]. right; right.
      by exists (s0 :: logs).
Qed.

(** A successful build with no device given, on a program that has
    devices cached. *)
Lemma BuildProgram_with_cache env w l prog devs options :
  programs w !! l = Some prog →
  slice_len devs = 0 →
  slice_len (devices prog) ≠ 0 →
  build_status env w prog devs [] options = CL_SUCCESS →
  BuildProgram env (Some l) devs options w =
    (Normal None, logged w (build_call prog devs [] options)).
Proof.
  intros H Hdevs Hcached Hcode. unfold BuildProgram.
  rewrite (run_bind_normal _ _ _ _ _ (device_list_none _ _ _ Hdevs)).
  rewrite (run_bind_normal _ _ _ _ _ (load_run _ _ _ H)).
  rewrite run_bind, native_clBuildProgram_run.
  fold (build_status env w prog devs [] options). rewrite Hcode.
  change (negb (CL_SUCCESS =? CL_SUCCESS)%Z) with false. cbv iota.
  rewrite Hdevs. change (0 <? 0)%nat with false. cbv iota.
  fold (build_call prog devs [] options).
  set (w1 := logged w (build_call prog devs [] options)).
  assert (H1 : programs w1 !! l = Some prog) by done.
  rewrite (run_bind_normal _ _ _ _ _ (load_run _ _ _ H1)).
  by destruct (Nat.eqb_spec (slice_len (devices prog)) 0).
Qed.

Lemma device_list_nonempty env devs w ids :
  device_list env devs w = (Normal ids, w) →
  slice_len devs = 0 → ids = [].
Proof.
  intros Hids Hlen. rewrite (device_list_none env devs w Hlen) in Hids.
  by injection Hids as <-.
Qed.

(** X10. A build that the driver reports as successful never yields an
    error: whenever [BuildProgram] returns after the driver answered
    [CL_SUCCESS], it returns nil, also when the discovery that follows
    fails or finds no device. *)
Theorem BuildProgram_success_returns_no_error env w l prog devs options ids
    r w' :
  programs w !! l = Some prog →
  device_list env devs w = (Normal ids, w) →
  build_status env w prog devs ids options = CL_SUCCESS →
  BuildProgram env (Some l) devs options w = (Normal r, w') →
  r = None.
Proof.
  intros H Hids Hcode Hrun.
  destruct (decide (0 < slice_len devs)) as [Hlen|Hlen].
  { rewrite (BuildProgram_explicit _ _ _ _ _ _ _ H Hids Hcode Hlen) in Hrun.
    by injection Hrun as <- _. }
  assert (Hzero : slice_len devs = 0) by lia.
  pose proof (device_list_nonempty _ _ _ _ Hids Hzero) as ->.
  destruct (decide (slice_len (devices prog) = 0)) as [Hcached|Hcached].
  - rewrite (BuildProgram_discovering _ _ _ _ _ _ H Hzero Hcached Hcode)
      in Hrun.
    destruct (associatedDevices env (Some l)
                (logged w (build_call prog devs [] options)))
      as [[[s [e|]]|] w2]; [by injection Hrun as <- _| |done].
    destruct (0 <? slice_len s)%nat; by injection Hrun as <- _.
  - rewrite (BuildProgram_with_cache _ _ _ _ _ _ H Hzero Hcached Hcode)
      in Hrun.
    by injection Hrun as <- _.
Qed.

Lemma BuildProgram_success_returns_no_error_witness :
  let env := Fake.env CL_SUCCESS Fake.no_logs (Fake.CL_INVALID_DEVICE, []) in
  ∃ r w',
    BuildProgram env (Some 0) nil_slice "" Fake.world0 = (Normal r, w') ∧
    r = None.
Proof.
  intros env. eexists _, _. split; [reflexivity|].
  exact (BuildProgram_success_returns_no_error env Fake.world0 0 Fake.prog0
           nil_slice "" [] _ _ eq_refl eq_refl eq_refl eq_refl).
Defined.

(** X11. A successful build with no device given keeps a device list that
    is already cached: the [Program] and the arrays are not touched and the
    driver is asked nothing besides the build. *)
Theorem BuildProgram_keeps_existing_cache env w l prog devs options :
  programs w !! l = Some prog →
  slice_len devs = 0 →
  slice_len (devices prog) ≠ 0 →
  build_status env w prog devs [] options = CL_SUCCESS →
  let w' := (BuildProgram env (Some l) devs options w).2 in
  programs w' = programs w ∧
  arrays w' = arrays w ∧
  cached w' l = cached w l ∧
  calls w' = calls w ++ [build_call prog devs [] options].
Proof.
  intros H Hdevs Hcached Hcode w'. subst w'.
  by rewrite (BuildProgram_with_cache _ _ _ _ _ _ H Hdevs Hcached Hcode).
Qed.

Lemma BuildProgram_keeps_existing_cache_witness :
  let env := Fake.env CL_SUCCESS Fake.no_logs (CL_SUCCESS, [9%N]) in
  cached (BuildProgram env (Some 0) nil_slice "" Fake.world1).2 0
    = [Fake.d 2; Fake.d 3].
Proof.
  intros env.
  destruct (BuildProgram_keeps_existing_cache env Fake.world1 0 Fake.prog1
              nil_slice "") as (_ & _ & Hcached & _);
    [reflexivity | reflexivity | discriminate | reflexivity |].
  exact Hcached.
Defined.

(** X12. Whatever error a failed build returns, its text contains the text
    of the translated driver status. *)
Theorem BuildProgram_error_names_status env w l prog devs options ids e w' :
  programs w !! l = Some prog →
  device_list env devs w = (Normal ids, w) →
  let code := build_status env w prog devs ids options in
  code ≠ CL_SUCCESS →
  BuildProgram env (Some l) devs options w = (Normal (Some e), w') →
  contains (Error env e) (Error env (toError env code)).
Proof.
  intros H Hids code Hcode Hrun.
  rewrite (BuildProgram_failed _ _ _ _ _ _ _ H Hids Hcode) in Hrun.
  fold code in Hrun. rewrite run_bind in Hrun.
  destruct (wrapBuildError env (Some l) code devs
              (logged w (build_call prog devs ids options)))
    as [[r|] w2] eqn:Hwrap; [|done].
  destruct (wrapBuildError_forms _ _ _ _ _ _ _ Hwrap)
    as (e0 & -> & Hform).
  simpl in Hrun. injection Hrun as <- _.
  destruct Hform as [->|[(e' & ->)|(logs & _ & ->)]].
  - apply contains_self.
  - unfold log_unavailable. simpl. apply contains_middle.
  - change (Error env (BuildError ?t)) with ("cl: build error (" +:+ t +:+ ")").
    destruct (Join_cons (status_line env code) logs nl) as [b ->].
    apply contains_append_l, contains_append_r, contains_append_r.
    unfold status_line. apply contains_append_l, contains_self.
Qed.

Lemma BuildProgram_error_names_status_witness :
  let env :=
    Fake.env Fake.CL_BUILD_PROGRAM_FAILURE Fake.scenario_logs
      (CL_SUCCESS, [1%N; 2%N]) in
  contains
    (Error env (BuildError
       ("status=cl: Build Program Failure" +:+ nl +:+
        "GPU0:" +:+ nl +:+ "error: syntax")))
    "cl: Build Program Failure".
Proof.
  intros env.
  refine (BuildProgram_error_names_status env Fake.world0 0 Fake.prog0
    nil_slice "-O2" []
    (BuildError ("status=cl: Build Program Failure" +:+ nl +:+
                 "GPU0:" +:+ nl +:+ "error: syntax"))
    _ eq_refl eq_refl _ _).
  - discriminate.
  - vm_compute. reflexivity.
Defined.

(** ** [Release], labels and sections *)

(** X13. [Release] changes the [Program] it is called on and nothing else:
    every other [Program] object and every backing array stays as it
    was. *)
Theorem Release_touches_only_its_program w l prog :
  programs w !! l = Some prog →
  let w' := (Release (Some l) w).2 in
  (∀ l', l' ≠ l → programs w' !! l' = programs w !! l') ∧
  length (programs w') = length (programs w) ∧
  arrays w' = arrays w.
Proof.
  intros H w'. subst w'. rewrite (Release_run _ _ _ H). simpl.
  split; [|split; [by rewrite length_insert|done]].
  intros l' Hne. by apply list_lookup_insert_ne.
Qed.

Lemma Release_touches_only_its_program_witness :
  let w :=
    {| programs := [Fake.prog0; Fake.prog1]; arrays := arrays Fake.world1;
       calls := [] |} in
  programs (Release (Some 0) w).2 !! 1 = Some Fake.prog1.
Proof.
  intros w.
  exact (proj1 (Release_touches_only_its_program w 0 Fake.prog0 eq_refl)
           1 ltac:(discriminate)).
Defined.

(** X14. The synthetic label tells devices apart: two different identity
    tokens never give the same "device@0x..." label. *)
Theorem synthetic_label_distinct (k1 k2 : N) :
  k1 ≠ k2 → synthetic_label k1 ≠ synthetic_label k2.
Proof.
  intros Hne Heq. apply Hne. unfold synthetic_label in Heq.
  apply (inj (String.append "device@")) in Heq.
  by rewrite <- (HexString.to_N_of_N k1), Heq, HexString.to_N_of_N.
Qed.

Lemma synthetic_label_distinct_witness :
  synthetic_label 10 ≠ synthetic_label 16.
Proof. apply synthetic_label_distinct. discriminate. Defined.

(** X15. [safeDeviceLabel] always returns: whether [Name] returns or
    panics, the caller gets a label and no panic.  It changes nothing in
    the heap and asks the driver the name of the device once, or nothing
    for a nil device. *)
Theorem safeDeviceLabel_always_returns env d w :
  ∃ label,
    safeDeviceLabel env d w =
      (Normal label,
       {| programs := programs w; arrays := arrays w;
          calls := calls w ++
                   match d with
                   | Some dev => [call_Name (id dev)]
                   | None => []
                   end |}).
Proof.
  destruct d as [dev|].
  - rewrite safeDeviceLabel_run. by eexists.
  - rewrite safeDeviceLabel_nil. eexists. f_equal.
    destruct w. simpl. by rewrite app_nil_r.
Qed.

Lemma sections_length env fetched :
  length (sections env fetched) ≤ length fetched.
Proof.
  induction fetched as [|[label [log [e|]]] rest IH]; [done| |].
  - change (S (length (sections env rest)) ≤ S (length rest)). lia.
  - change (sections env ((label, (log, None)) :: rest))
      with (contribution env label (log, None) ++ sections env rest).
    rewrite length_app. simpl.
    destruct (TrimSpace log =? "")%string; simpl; lia.
Qed.

(** X16. [collectBuildLogs] returns at most one section per device: the
    capacity [len(devices)] it reserves for [logs] is never exceeded. *)
Theorem collectBuildLogs_at_most_one_section_each env p devs w logs w' :
  collectBuildLogs env p devs w = (Normal logs, w') →
  length logs ≤ length devs.
Proof.
  rewrite collectBuildLogs_fetch_all, run_bind.
  destruct (fetch_all env p devs w) as [[fetched|] w1] eqn:Hfetch; [|done].
  intros [= <- _]. rewrite <- (fetch_all_length _ _ _ _ _ _ Hfetch).
  apply sections_length.
Qed.

Lemma collectBuildLogs_at_most_one_section_each_witness :
  let env :=
    Fake.env Fake.CL_BUILD_PROGRAM_FAILURE Fake.scenario_logs (CL_SUCCESS, [])
  in
  length ["GPU0:" +:+ nl +:+ "error: syntax"] ≤ length [Fake.d 1; Fake.d 2].
Proof.
  intros env.
  refine (collectBuildLogs_at_most_one_section_each env (Some 0)
    [Fake.d 1; Fake.d 2] Fake.world0 _ _ _).
  vm_compute. reflexivity.
Defined.

(** ** One build per call *)

Lemma diagnostic_calls_build_nothing rest :
  forallb is_diagnostic rest = true →
  List.filter is_build rest = [] ∧ List.filter is_release rest = [].
Proof.
  induction rest as [|c rest IH]; simpl; [done|].
  intros Hall. apply andb_prop in Hall as [Hc Hrest].
  destruct (IH Hrest) as [-> ->]. by destruct c.
Qed.

(** X17. Once the device ids are gathered, [BuildProgram] asks the driver
    to build exactly once, before anything else, and whatever it asks
    afterwards is a device name, a build log or the associated devices:
    the build is not retried and the program is not released. *)
Theorem BuildProgram_builds_once env w l prog devs options ids :
  programs w !! l = Some prog →
  device_list env devs w = (Normal ids, w) →
  ∃ rest,
    calls (BuildProgram env (Some l) devs options w).2 =
      calls w ++ build_call prog devs ids options :: rest ∧
    forallb is_diagnostic rest = true ∧
    List.filter is_build (build_call prog devs ids options :: rest) =
      [build_call prog devs ids options] ∧
    List.filter is_release (build_call prog devs ids options :: rest) = [].
Proof.
  intros H Hids.
  assert (Hmain : ∃ rest,
    calls (BuildProgram env (Some l) devs options w).2 =
      calls w ++ build_call prog devs ids options :: rest ∧
    forallb is_diagnostic rest = true).
  { set (w1 := logged w (build_call prog devs ids options)).
    assert (Hfrom : ∀ v new,
      calls v = calls w1 ++ new → forallb is_diagnostic new = true →
      ∃ rest, calls v = calls w ++ build_call prog devs ids options :: rest ∧
              forallb is_diagnostic rest = true).
    { intros v new Hv Hnew. exists new. split; [|done].
      rewrite Hv. unfold w1. simpl. by rewrite <- app_assoc. }
    destruct (decide (build_status env w prog devs ids options = CL_SUCCESS))
      as [Hcode|Hcode].
    - destruct (decide (0 < slice_len devs)) as [Hlen|Hlen].
      { rewrite (BuildProgram_explicit _ _ _ _ _ _ _ H Hids Hcode Hlen).
        by exists []. }
      assert (Hzero : slice_len devs = 0) by lia.
      pose proof (device_list_nonempty _ _ _ _ Hids Hzero) as ->.
      destruct (decide (slice_len (devices prog) = 0)) as [Hcached|Hcached].
      + rewrite (BuildProgram_discovering _ _ _ _ _ _ H Hzero Hcached Hcode).
        fold w1.
        destruct (steps_associatedDevices env (Some l) w1)
          as (_ & _ & new & Hc & Hall).
        assert (Hdiag : forallb is_diagnostic new = true).
        { apply forallb_forall. intros c Hin.
          eapply forallb_forall in Hall; [|done]. by destruct c. }
        destruct (associatedDevices env (Some l) w1) as [[[s [e|]]|] w2];
          simpl in Hc; [by eapply Hfrom| |by eapply Hfrom].
        destruct (0 <? slice_len s)%nat; by eapply Hfrom.
      + rewrite (BuildProgram_with_cache _ _ _ _ _ _ H Hzero Hcached Hcode).
        by exists [].
    - rewrite (BuildProgram_failed _ _ _ _ _ _ _ H Hids Hcode). fold w1.
      assert (Hsteps : steps is_diagnostic
        (buildErr ←
           wrapBuildError env (Some l)
             (build_status env w prog devs ids options) devs;
         match buildErr with
         | Some e => mret (Some e)
         | None =>
             mret (Some (toError env
                           (build_status env w prog devs ids options)))
         end)).
      { apply steps_bind; [apply steps_wrapBuildError|].
        intros [e|]; apply steps_ret. }
      destruct (Hsteps w1) as (_ & _ & new & Hc & Hall).
      by eapply Hfrom. }
  destruct Hmain as (rest & Hcalls & Hall). exists rest.
  split; [done|]. split; [done|].
  destruct (diagnostic_calls_build_nothing rest Hall) as [Hb Hr].
  unfold build_call. simpl. by rewrite Hb, Hr.
Qed.

Lemma BuildProgram_builds_once_witness :
  let env :=
    Fake.env Fake.CL_BUILD_PROGRAM_FAILURE Fake.scenario_logs
      (CL_SUCCESS, [1%N; 2%N]) in
  ∃ rest,
    calls (BuildProgram env (Some 0) nil_slice "-O2" Fake.world0).2 =
      calls Fake.world0
        ++ build_call Fake.prog0 nil_slice [] "-O2" :: rest.
Proof.
  intros env.
  destruct (BuildProgram_builds_once env Fake.world0 0 Fake.prog0 nil_slice
              "-O2" [] eq_refl eq_refl) as (rest & Hcalls & _).
  by exists rest.
Defined.

(** ** A failed build after a successful one *)

(** X18. The devices cached by a successful build serve a later failed
    build: when nothing is requested then, the aggregator resolves to the
    devices given to the earlier build (those with a token, deduplicated)
    without asking the driver for the associated devices. *)
Theorem cached_devices_serve_later_failure env w l prog devs options ids w2 :
  programs w !! l = Some prog →
  device_list env devs w = (Normal ids, w) →
  build_status env w prog devs ids options = CL_SUCCESS →
  0 < slice_len devs →
  with_token (elems w devs) ≠ [] →
  let w1 := (BuildProgram env (Some l) devs options w).2 in
  programs w2 = programs w1 →
  arrays w2 = arrays w1 →
  collectDevicesForLogs env (Some l) nil_slice w2 =
    (Normal (dedup_by_token (with_token (elems w devs)), None), w2).
Proof.
  intros H Hids Hcode Hlen Hsome w1 Hp Ha. subst w1.
  rewrite (BuildProgram_explicit _ _ _ _ _ _ _ H Hids Hcode Hlen) in Hp, Ha.
  simpl in Hp, Ha.
  assert (Hlt : l < length (programs w)) by (by eapply lookup_lt_Some).
  set (prog' := {| clProgram := clProgram prog;
                   devices := Slice (length (arrays w)) 0
                                (length (elems w devs)) |}).
  assert (H2 : programs w2 !! l = Some prog').
  { rewrite Hp. by apply list_lookup_insert_eq. }
  assert (Hel : elems w2 (devices prog') = elems w devs).
  { by apply (elems_fresh w). }
  rewrite (collectDevicesForLogs_run env w2 l prog' nil_slice H2).
  cbv zeta. rewrite Hel. simpl elems. rewrite app_nil_l.
  destruct (with_token (elems w devs)) as [|d0 rest] eqn:E; [done|].
  done.
Qed.

Lemma cached_devices_serve_later_failure_witness :
  let env := Fake.env CL_SUCCESS Fake.no_logs (CL_SUCCESS, [9%N]) in
  let w1 := (BuildProgram env (Some 0) Fake.requested1 "" Fake.world1).2 in
  collectDevicesForLogs env (Some 0) nil_slice w1 =
    (Normal ([Fake.d 1; Fake.d 2], None), w1).
Proof.
  intros env w1.
  refine (cached_devices_serve_later_failure env Fake.world1 0 Fake.prog1
    Fake.requested1 "" [1%N; 2%N] w1 eq_refl eq_refl eq_refl _ _
    eq_refl eq_refl).
  - simpl. lia.
  - discriminate.
Defined.

(** ** [CreateKernel], failed resolution, and the handle *)

(** X19. On a live pointer [CreateKernel] does not panic and returns
    either a kernel and no error, or no kernel and the translation of a
    driver status other than [CL_SUCCESS].  The kernel carries the name as
    it was passed.  No [Program] object and no array is changed, and the
    driver is asked once. *)
Theorem CreateKernel_kernel_or_error env w l prog kname :
  programs w !! l = Some prog →
  ∃ k err,
    clCreateKernel env (calls w) (clProgram prog) (CString kname) = (k, err) ∧
    (CreateKernel env (Some l) kname w).2 =
      logged w (call_clCreateKernel (clProgram prog) (CString kname)) ∧
    (err = CL_SUCCESS →
     (CreateKernel env (Some l) kname w).1 =
       Normal (Some {| clKernel := k; name := kname |}, None)) ∧
    (err ≠ CL_SUCCESS →
     (CreateKernel env (Some l) kname w).1 =
       Normal (None, Some (toError env err))).
Proof.
  intros H. rewrite (CreateKernel_run _ _ _ _ _ H).
  destruct (clCreateKernel env (calls w) (clProgram prog) (CString kname))
    as [k err].
  exists k, err. split; [done|]. split; [done|]. simpl.
  destruct (Z.eqb_spec err CL_SUCCESS); split; intros; done.
Qed.

Lemma CreateKernel_kernel_or_error_witness :
  let env := Fake.env CL_SUCCESS Fake.no_logs (CL_SUCCESS, []) in
  (CreateKernel env (Some 0) "main" Fake.world0).1 =
    Normal (Some {| clKernel := 77%N; name := "main" |}, None).
Proof.
  intros env.
  destruct (CreateKernel_kernel_or_error env Fake.world0 0 Fake.prog0 "main"
              eq_refl) as (k & err & Hdrv & _ & Hok & _).
  injection Hdrv as <- <-. by apply Hok.
Defined.

(** X20. [collectDevicesForLogs] fails only when no requested and no
    cached device carries a token and the discovery fails; the error is
    then the error of the discovery, and no device is returned with it. *)
Theorem collectDevicesForLogs_fails_with_discovery env w l prog requested
    devs e w' :
  programs w !! l = Some prog →
  collectDevicesForLogs env (Some l) requested w =
    (Normal (devs, Some e), w') →
  devs = [] ∧
  with_token (elems w requested ++ elems w (devices prog)) = [] ∧
  ∃ s, associatedDevices env (Some l) w = (Normal (s, Some e), w').
Proof.
  intros H Hrun.
  rewrite (collectDevicesForLogs_run env w l prog requested H) in Hrun.
  simpl in Hrun.
  destruct (with_token (elems w requested ++ elems w (devices prog)))
    as [|d0 rest]; [|done].
  simpl in Hrun.
  destruct (associatedDevices env (Some l) w) as [[[s [e0|]]|] w2]; try done.
  injection Hrun as <- <- <-. split; [done|]. split; [done|]. by exists s.
Qed.

Lemma collectDevicesForLogs_fails_with_discovery_witness :
  let env :=
    Fake.env Fake.CL_BUILD_PROGRAM_FAILURE Fake.no_logs
      (Fake.CL_INVALID_DEVICE, []) in
  with_token (elems Fake.world0 nil_slice ++ elems Fake.world0 nil_slice) = [].
Proof.
  intros env.
  refine (proj1 (proj2 (collectDevicesForLogs_fails_with_discovery env
    Fake.world0 0 Fake.prog0 nil_slice [] ErrInvalidDevice
    (logged Fake.world0 (call_clGetProgramInfo 100%N 0%N)) eq_refl _))).
  reflexivity.
Defined.

(** X21. [BuildProgram] never changes the handle of its [Program], and
    never touches another [Program] object, whether the build succeeds or
    fails. *)
Theorem BuildProgram_keeps_handle env w l prog devs options ids :
  programs w !! l = Some prog →
  device_list env devs w = (Normal ids, w) →
  let w' := (BuildProgram env (Some l) devs options w).2 in
  (∃ prog',
     programs w' !! l = Some prog' ∧ clProgram prog' = clProgram prog) ∧
  (∀ l', l' ≠ l → programs w' !! l' = programs w !! l').
Proof.
  intros H Hids w'. subst w'.
  assert (Hlt : l < length (programs w)) by (by eapply lookup_lt_Some).
  set (w1 := logged w (build_call prog devs ids options)).
  assert (Hsame : ∀ v, programs v = programs w →
    (∃ prog', programs v !! l = Some prog' ∧ clProgram prog' = clProgram prog)
    ∧ (∀ l', l' ≠ l → programs v !! l' = programs w !! l')).
  { intros v ->. split; [by exists prog|done]. }
  assert (Hset : ∀ v s ars cs, programs v = programs w →
    (∃ prog',
       programs {| programs :=
                     <[l := {| clProgram := clProgram prog; devices := s |}]>
                       (programs v);
                   arrays := ars; calls := cs |} !! l = Some prog' ∧
       clProgram prog' = clProgram prog)
    ∧ (∀ l', l' ≠ l →
         programs {| programs :=
                       <[l := {| clProgram := clProgram prog; devices := s |}]>
                         (programs v);
                     arrays := ars; calls := cs |} !! l' = programs w !! l')).
  { intros v s ars cs ->. simpl. split.
    - eexists. split; [by apply list_lookup_insert_eq|done].
    - intros l' Hne. by apply list_lookup_insert_ne. }
  destruct (decide (build_status env w prog devs ids options = CL_SUCCESS))
    as [Hcode|Hcode].
  - destruct (decide (0 < slice_len devs)) as [Hlen|Hlen].
    { rewrite (BuildProgram_explicit _ _ _ _ _ _ _ H Hids Hcode Hlen).
      by apply (Hset w). }
    assert (Hzero : slice_len devs = 0) by lia.
    pose proof (device_list_nonempty _ _ _ _ Hids Hzero) as ->.
    destruct (decide (slice_len (devices prog) = 0)) as [Hcached|Hcached].
    + rewrite (BuildProgram_discovering _ _ _ _ _ _ H Hzero Hcached Hcode).
      fold w1.
      destruct (steps_associatedDevices env (Some l) w1) as (Hp & _).
      destruct (associatedDevices env (Some l) w1) as [[[s [e|]]|] w2];
        simpl in Hp; [by apply Hsame| |by apply Hsame].
      destruct (0 <? slice_len s)%nat; [by apply Hset|by apply Hsame].
    + rewrite (BuildProgram_with_cache _ _ _ _ _ _ H Hzero Hcached Hcode).
      by apply Hsame.
  - apply Hsame.
    rewrite (BuildProgram_failed _ _ _ _ _ _ _ H Hids Hcode). fold w1.
    assert (Hsteps : steps is_diagnostic
      (buildErr ←
         wrapBuildError env (Some l)
           (build_status env w prog devs ids options) devs;
       match buildErr with
       | Some e => mret (Some e)
       | None =>
           mret (Some (toError env
                         (build_status env w prog devs ids options)))
       end)).
    { apply steps_bind; [apply steps_wrapBuildError|].
      intros [e|]; apply steps_ret. }
    by destruct (Hsteps w1) as (Hp & _).
Qed.

Lemma BuildProgram_keeps_handle_witness :
  let env := Fake.env CL_SUCCESS Fake.no_logs (CL_SUCCESS, [9%N]) in
  ∃ prog',
    programs (BuildProgram env (Some 0) Fake.requested1 "" Fake.world1).2 !! 0
      = Some prog' ∧
    clProgram prog' = 100%N.
Proof.
  intros env.
  exact (proj1 (BuildProgram_keeps_handle env Fake.world1 0 Fake.prog1
                  Fake.requested1 "" [1%N; 2%N] eq_refl eq_refl)).
Defined.
